(** * NI disease prevalence: pre-computation script and dashboard

  A shallow embedding of the two programs of the repository:

  - the R pre-computation script (header normalisation, register
    aggregation, geocoder join, dataset emitter), and
  - the D3 dashboard script (feature derivation, table ordering,
    pagination state).

  Conventions of the embedding.

  - An R character string is a [string]; [NA] is [None].
  - An R double is an exact rational ([Q]); the binary rounding error of
    double arithmetic is not modelled, the explicit operations of the script
    ([as.integer], [round(x, 10)], [mean], [sum(na.rm = TRUE)]) are.
  - A named R list written with [x[[key]] <- v] is a [gmap string _].
  - A JavaScript number that is always whole in the program (page numbers,
    lengths, patient counts) is a [Z]. *)

From Stdlib Require Import ZArith QArith Qround Qabs String Ascii List Lia Lqa.
From Stdlib Require Import Sorting.Permutation Sorting.Sorted.
From stdpp Require Import base option gmap strings list fin_maps sorting.

Local Open Scope Z_scope.

(** ** Character strings (stringr helpers used by the R script) *)

Module Str.

Definition chars (s : string) : list ascii := list_ascii_of_string s.
Definition of_chars (l : list ascii) : string := string_of_list_ascii l.

(** [[0-9]] *)
Definition is_digit (c : ascii) : bool :=
  (48 <=? N_of_ascii c)%N && (N_of_ascii c <=? 57)%N.

(** White space removed by [str_trim] (ASCII part of the class). *)
Definition is_space (c : ascii) : bool := Ascii.is_space c.

Fixpoint drop_space (l : list ascii) : list ascii :=
  match l with
  | c :: t => if is_space c then drop_space t else l
  | [] => []
  end.

(** [str_trim(x)]: white space removed from both sides. *)
Definition trim_chars (l : list ascii) : list ascii :=
  rev (drop_space (rev (drop_space l))).

Definition str_trim (s : string) : string := of_chars (trim_chars (chars s)).

(** [str_detect(x, '^p')] for a literal [p]. *)
Definition starts_with (p s : string) : bool := String.prefix p s.

(** [str_detect(x, 'p')] for a literal [p]: [p] occurs somewhere in [x]. *)
Fixpoint contains (p s : string) : bool :=
  String.prefix p s ||
  match s with
  | EmptyString => false
  | String _ t => contains p t
  end.

(** The text from here to the end of the string matches [\.[0-9]+]. *)
Definition at_dot_digits (l : list ascii) : bool :=
  match l with
  | c :: t => Ascii.eqb c "." && negb (Nat.eqb (length t) 0) && forallb is_digit t
  | [] => false
  end.

(** The text from here to the end of the string matches [ [0-9]+\+]. *)
Definition at_space_digits_plus (l : list ascii) : bool :=
  match l with
  | c :: t =>
      Ascii.eqb c " " &&
      match rev t with
      | p :: ds => Ascii.eqb p "+" && negb (Nat.eqb (length ds) 0) && forallb is_digit ds
      | [] => false
      end
  | [] => false
  end.

(** [str_replace(x, 're$', '')]: the first (leftmost) position at which
    the pattern, anchored at the end of the string, matches is cut off;
    without a match the string is returned as it is. *)
Fixpoint cut_at (matches : list ascii -> bool) (l : list ascii) : list ascii :=
  match l with
  | [] => []
  | c :: t => if matches l then [] else c :: cut_at matches t
  end.

(** A non-empty run of decimal digits. *)
Definition is_digits (s : string) : bool :=
  negb (s =? "")%string && forallb is_digit (chars s).

(** [str_split(x, '\\|')[[1]]] *)
Fixpoint split_bar (cur : list ascii) (l : list ascii) : list (list ascii) :=
  match l with
  | [] => [rev cur]
  | c :: t => if Ascii.eqb c "|" then rev cur :: split_bar [] t
              else split_bar (c :: cur) t
  end.

Definition str_split_bar (s : string) : list string :=
  of_chars <$> split_bar [] (chars s).

End Str.

(** ** Source normaliser (R script, header collapse and column selection) *)

Module Normalizer.
Import Str.

(** One header cell of [collapse_headers]:
    [ifelse(is.na(x) || str_detect(x, '^Unnamed'), '', str_trim(x))]. *)
Definition header_cell (x : option string) : string :=
  match x with
  | None => ""
  | Some s => if starts_with "Unnamed" s then "" else str_trim s
  end.

(** The [if / else if] chain of [collapse_headers] on the two blanked and
    trimmed cells. *)
Definition canonical_key (a b : string) : string :=
  if negb (a =? "")%string && negb (b =? "")%string then a +:+ "|" +:+ b
  else if negb (a =? "")%string then a
  else if negb (b =? "")%string then b
  else "".

Definition collapse_column (col : option string * option string) : string :=
  canonical_key (header_cell col.1) (header_cell col.2).

(** [collapse_headers(header_df)]: one name per physical column. *)
Definition collapse_headers (header_df : list (option string * option string))
  : list string :=
  collapse_column <$> header_df.

(** Base R [duplicated(x)]: the flag of an element says whether an equal
    element occurs before it. *)
Fixpoint duplicated_from (seen xs : list string) : list bool :=
  match xs with
  | [] => []
  | x :: t => bool_decide (x ∈ seen) :: duplicated_from (x :: seen) t
  end.

Definition duplicated (xs : list string) : list bool := duplicated_from [] xs.

(** [df[, keep]] with a logical column index. *)
Fixpoint select_columns {A} (keep : list bool) (cols : list A) : list A :=
  match keep, cols with
  | k :: ks, c :: cs => if k then c :: select_columns ks cs else select_columns ks cs
  | _, _ => []
  end.

(** The selection below with the names seen so far made explicit. *)
Definition dedup_from {A} (seen : list string) (cols : list (string * A))
  : list (string * A) :=
  select_columns (negb <$> duplicated_from seen (fst <$> cols)) cols.

(** [prevalence_df[, !duplicated(colnames(prevalence_df))]] on a sheet given
    as its physical columns, each with its collapsed name. *)
Definition drop_duplicate_columns {A} (cols : list (string * A)) : list (string * A) :=
  select_columns (negb <$> duplicated (fst <$> cols)) cols.

(** The names of the columns that remain, from the two header rows. *)
Definition kept_names (header_df : list (option string * option string)) : list string :=
  fst <$> drop_duplicate_columns ((λ k, (k, tt)) <$> collapse_headers header_df).

(** [unique(x)]: first occurrences, in order. *)
Definition unique (xs : list string) : list string :=
  select_columns (negb <$> duplicated xs) xs.

End Normalizer.

(** ** Records of the interchange document *)

Module Interchange.

(** [list(patients =, prevalence_per_1000 =, prevalence_over50_per_1000 =)];
    a rate that is [NA] is written as JSON [null]. *)
Record ConditionMetric := {
  patients : Z;
  prevalence_per_1000 : option Q;
  prevalence_over50_per_1000 : option Q
}.

Record ConditionTotals := {
  total_patients : Z;
  totals_prevalence_per_1000 : option Q;
  totals_prevalence_over50_per_1000 : option Q
}.

(** [list(name =, latitude =, longitude =)]; a missing coordinate is [NA]
    in R and [null] in the document. *)
Record PracticeInfo := {
  name : string;
  latitude : option Q;
  longitude : option Q
}.

End Interchange.

(** ** Register aggregator (R script) *)

Module Aggregator.
Import Str Normalizer Interchange.

(** One row of [prevalence_df] after the row filter: the practice id and,
    per column name, the result of [as.numeric] on the cell ([NA] is a
    missing key). *)
Record row := {
  Practice_Id : string;
  cells : gmap string Q
}.

Record data_frame := {
  names : list string;
  rows : list row
}.

(** A sheet row before the filter: the practice id cell may be [NA]. *)
Record sheet_row := {
  sheet_id : option string;
  sheet_cells : gmap string Q
}.

(** [filter(!is.na(`Practice Id`)) %>% filter(`Practice Id` != "Northern Ireland")] *)
Definition filter_rows (rs : list sheet_row) : list row :=
  omap (λ r, match sheet_id r with
             | Some pid => if (pid =? "Northern Ireland")%string then None
                           else Some {| Practice_Id := pid; cells := sheet_cells r |}
             | None => None
             end) rs.

(** Column roles. *)
Definition patient_cols (df : data_frame) : list string :=
  List.filter (starts_with "Number of patients on register|") (names df).
Definition prev_cols (df : data_frame) : list string :=
  List.filter (starts_with "Prevalence per 1000 patients using full list|") (names df).
Definition subset_cols (df : data_frame) : list string :=
  List.filter (λ cn, contains "subset" cn && contains "Prevalence" cn) (names df).

Definition str_replace_repetition (x : string) : string :=
  of_chars (cut_at at_dot_digits (chars x)).
Definition str_replace_age_band (x : string) : string :=
  of_chars (cut_at at_space_digits_plus (chars x)).

(** [clean_register_name]: [\.[0-9]+$] removed, then [ [0-9]+\+$], then
    [str_trim]. *)
Definition clean_register_name (x : string) : string :=
  str_trim (str_replace_age_band (str_replace_repetition x)).

(** [str_split(cn, '\\|')[[1]][2]]: [NA] when the name has no bar. *)
Definition register_portion (cn : string) : option string :=
  str_split_bar cn !! 1%nat.

(** [lapply(cols, function(cn) clean_register_name(...))] with the column
    names as names of the result. *)
Definition register_map (cols : list string) : list (string * option string) :=
  (λ cn, (cn, clean_register_name <$> register_portion cn)) <$> cols.

(** [names(m)[m == base_name]]: the columns mapped to the base name. A
    column whose name has no bar is mapped to [NA] and belongs to no base
    name. *)
Definition cols_of (m : list (string * option string)) (base_name : string)
  : list string :=
  fst <$> List.filter (λ e, bool_decide (e.2 = Some base_name)) m.

(** [unique(unlist(patient_map))] *)
Definition base_names (df : data_frame) : list string :=
  unique (omap snd (register_map (patient_cols df))).

(** [sum(x, na.rm = TRUE)] *)
Definition add_na_rm (acc : Q) (x : option Q) : Q :=
  match x with Some v => (acc + v)%Q | None => acc end.

Definition sum_na_rm (xs : list (option Q)) : Q := fold_left add_na_rm xs 0%Q.

(** [as.numeric(row[cols])] *)
Definition row_values (r : row) (cols : list string) : list (option Q) :=
  (λ c, cells r !! c) <$> cols.

(** [as.integer(x)]: truncation towards zero. *)
Definition as_integer (x : Q) : Z := Z.quot (Qnum x) (Zpos (Qden x)).

Definition mean (xs : list Q) : Q :=
  (fold_left Qplus xs 0 / inject_Z (Z.of_nat (length xs)))%Q.

(** [v <- v[!is.na(v)]; if (length(v) > 0) mean(v) else NA_real_] *)
Definition mean_or_na (xs : list (option Q)) : option Q :=
  match omap id xs with
  | [] => None
  | vs => Some (mean vs)
  end.

(** Nearest whole number, a tie going to the even neighbour. *)
Definition round_half_even (y : Q) : Z :=
  let f := Qfloor y in
  match (y - inject_Z f ?= 1 # 2)%Q with
  | Lt => f
  | Gt => f + 1
  | Eq => if Z.even f then f else f + 1
  end.

(** [round(x, digits)] on exact rationals. *)
Definition round (x : Q) (digits : nat) : Q :=
  let s := 10 ^ Z.of_nat digits in
  Qmake (round_half_even (x * inject_Z s)) (Z.to_pos s).

Definition Qlt_bool (a b : Q) : bool := negb (Qle_bool b a).

(** [sum(as.numeric(prevalence_df$`Practice List Size`), na.rm = TRUE)] *)
Definition population_total (df : data_frame) : Q :=
  sum_na_rm ((λ r, cells r !! "Practice List Size") <$> rows df).

(** [NA_real_] unless the column is among the names of the frame. *)
Definition population_50_total (df : data_frame) : option Q :=
  if bool_decide ("Target population size|50+" ∈ names df)
  then Some (sum_na_rm ((λ r, cells r !! "Target population size|50+") <$> rows df))
  else None.

(** Body of the loop over the rows, on the pair
    [(total_patients, per_practice)]. *)
Definition row_step (pt_cols pr_cols ss_cols : list string)
    (acc : Q * gmap string ConditionMetric) (r : row)
  : Q * gmap string ConditionMetric :=
  let pts := sum_na_rm (row_values r pt_cols) in
  if Qeq_bool pts 0 then acc
  else
    let prev := mean_or_na (row_values r pr_cols) in
    let prev50 := mean_or_na (row_values r ss_cols) in
    ((acc.1 + pts)%Q,
     <[Practice_Id r := {| patients := as_integer pts;
                           prevalence_per_1000 := (λ v, round v 10) <$> prev;
                           prevalence_over50_per_1000 := (λ v, round v 10) <$> prev50 |}]>
       acc.2).

(** [total_patients / denominator * 1000] when the denominator is known
    and positive, [NA_real_] otherwise. *)
Definition rate (total_patients : Q) (denominator : option Q) : option Q :=
  match denominator with
  | Some d => if Qlt_bool 0 d then Some (total_patients / d * 1000)%Q else None
  | None => None
  end.

(** The rows loop for one base name: [(total_patients, per_practice)]. *)
Definition per_condition (df : data_frame) (base_name : string)
  : Q * gmap string ConditionMetric :=
  let pt_cols := cols_of (register_map (patient_cols df)) base_name in
  let pr_cols := cols_of (register_map (prev_cols df)) base_name in
  let ss_cols := cols_of (register_map (subset_cols df)) base_name in
  fold_left (row_step pt_cols pr_cols ss_cols) (rows df) (0%Q, ∅).

Definition totals_of (df : data_frame) (total : Q) : ConditionTotals :=
  let prev_all := rate total (Some (population_total df)) in
  let prev50_all := rate total (population_50_total df) in
  {| total_patients := as_integer total;
     totals_prevalence_per_1000 := (λ v, round v 10) <$> prev_all;
     totals_prevalence_over50_per_1000 := (λ v, round v 10) <$> prev50_all |}.

(** The two lists filled by the loop over the base names. *)
Record aggregate := {
  condition_data : gmap string (gmap string ConditionMetric);
  condition_totals : gmap string ConditionTotals
}.

Definition condition_step (df : data_frame) (acc : aggregate) (base_name : string)
  : aggregate :=
  let res := per_condition df base_name in
  {| condition_data := <[base_name := res.2]> (condition_data acc);
     condition_totals := <[base_name := totals_of df res.1]> (condition_totals acc) |}.

Definition run (df : data_frame) : aggregate :=
  fold_left (condition_step df) (base_names df)
    {| condition_data := ∅; condition_totals := ∅ |}.



(** *** Well-formed extracts

    The data model of the extract: a practice id identifies one row, and a
    patient count is a whole number that is not negative. *)







End Aggregator.

(** ** Geocoder join and practice directory (R script) *)

Module Geocoder.
Import Str Interchange.

(** A row of the practice details sheet. *)
Record practice_row := {
  Practice_ID : string;
  PracticeName : string;
  Postcode : string
}.

(** A row of the postcode table, coordinates after [as.numeric]. *)
Record postcode_row := {
  pc_Postcode : string;
  pc_Latitude : option Q;
  pc_Longitude : option Q
}.

(** [mutate(Postcode = str_trim(Postcode), ...) %>%
     filter(!is.na(Latitude) & !is.na(Longitude))] *)
Definition located (pcs : list postcode_row) : list (string * (Q * Q)) :=
  omap (λ r, match pc_Latitude r, pc_Longitude r with
             | Some la, Some lo => Some (str_trim (pc_Postcode r), (la, lo))
             | _, _ => None
             end) pcs.

(** [distinct(Postcode, .keep_all = TRUE)]: the first row of each postcode. *)
Fixpoint distinct_from (seen : list string) (rs : list (string * (Q * Q)))
  : list (string * (Q * Q)) :=
  match rs with
  | [] => []
  | r :: t => if bool_decide (r.1 ∈ seen) then distinct_from seen t
              else r :: distinct_from (r.1 :: seen) t
  end.

Definition postcode_df (pcs : list postcode_row) : list (string * (Q * Q)) :=
  distinct_from [] (located pcs).

(** [left_join(postcode_df, by = "Postcode")] for one practice row: the
    coordinates of the matching row, [NA] without a match. *)
Definition join_row (pdf : list (string * (Q * Q))) (r : practice_row)
  : string * PracticeInfo :=
  let hit := snd <$> List.find (λ e, bool_decide (e.1 = str_trim (Postcode r))) pdf in
  (Practice_ID r,
   {| name := PracticeName r; latitude := fst <$> hit; longitude := snd <$> hit |}).

(** The loop that fills [practice_info], keyed by practice id. *)
Definition practice_info (details : list practice_row) (pcs : list postcode_row)
  : gmap string PracticeInfo :=
  fold_left (λ acc r, let e := join_row (postcode_df pcs) r in <[e.1 := e.2]> acc)
    details ∅.

End Geocoder.

(** ** Dataset emitter (R script) *)

Module Emitter.
Import Interchange.

(** The list handed to [write_json]. *)
Record output := {
  practice_info : gmap string PracticeInfo;
  condition_totals : gmap string ConditionTotals;
  condition_data : gmap string (gmap string ConditionMetric)
}.

(** The script from the filtered prevalence table, the practice details
    sheet and the postcode table to the emitted list. *)
Definition emit (df : Aggregator.data_frame)
    (details : list Geocoder.practice_row) (pcs : list Geocoder.postcode_row)
  : output :=
  let agg := Aggregator.run df in
  {| practice_info := Geocoder.practice_info details pcs;
     condition_totals := Aggregator.condition_totals agg;
     condition_data := Aggregator.condition_data agg |}.

End Emitter.

(** ** Dashboard controller and table renderer (dashboard script) *)

Module Dashboard.
Import Interchange.

(** The parsed interchange document. [practice_info] is the list
    [Object.entries(data.practice_info)], in iteration order. *)
Record Dataset := {
  practice_info : list (string * PracticeInfo);
  condition_totals : gmap string ConditionTotals;
  condition_data : gmap string (gmap string ConditionMetric)
}.

(** A JavaScript number as far as [isNaN] can tell. *)
Inductive number := NaN | Num (q : Q).

(** Unary plus on a value read from the document, which is [null] or a
    number: [+null] is [0]. *)
Definition to_number (v : option Q) : number :=
  match v with
  | None => Num 0
  | Some q => Num q
  end.

Definition isNaN (n : number) : bool :=
  match n with NaN => true | Num _ => false end.

Record Feature := {
  feature_id : string;
  feature_name : string;
  feature_latitude : number;
  feature_longitude : number;
  prevalence : option Q;
  prevalence50 : option Q;
  feature_patients : Z
}.

(** Body of the loop over [Object.entries(data.practice_info)]; [None] is
    [continue]. *)
Definition feature_of (per : gmap string ConditionMetric)
    (entry : string * PracticeInfo) : option Feature :=
  let '(pid, info) := entry in
  match per !! pid with
  | None => None
  | Some condData =>
      let lat := to_number (latitude info) in
      let lon := to_number (longitude info) in
      if isNaN lat || isNaN lon then None
      else Some {| feature_id := pid; feature_name := name info;
                   feature_latitude := lat; feature_longitude := lon;
                   prevalence := prevalence_per_1000 condData;
                   prevalence50 := prevalence_over50_per_1000 condData;
                   feature_patients := patients condData |}
  end.

(** The feature loop of [updateDashboard]. Reading
    [data.condition_data[condition][pid]] throws when the condition has no
    mapping, which happens on the first entry; [None] is that exception. *)
Definition derive_features (data : Dataset) (condition : string)
  : option (list Feature) :=
  match practice_info data with
  | [] => Some []
  | entries =>
      match condition_data data !! condition with
      | Some per => Some (omap (feature_of per) entries)
      | None => None
      end
  end.

(** [d3.descending] on two numbers. *)
Definition descending (a b : Z) : Z :=
  if b <? a then -1 else if a <? b then 1 else 0.

(** [Array.prototype.sort(comparefn)]. The language requires a stable sort;
    for a consistent comparator the result of every stable sort is the
    same list, computed here by insertion from the right. *)
Fixpoint insert_sorted {A} (comparefn : A → A → Z) (x : A) (l : list A) : list A :=
  match l with
  | [] => [x]
  | y :: t => if 0 <? comparefn x y then y :: insert_sorted comparefn x t
              else x :: y :: t
  end.

Definition sort {A} (comparefn : A → A → Z) (l : list A) : list A :=
  foldr (insert_sorted comparefn) [] l.

(** [features.slice().sort((a, b) => d3.descending(a.patients, b.patients))] *)
Definition table_order (features : list Feature) : list Feature :=
  sort (λ a b, descending (feature_patients a) (feature_patients b)) features.

(** The pagination variables of the script. *)
Record State := {
  currentTableData : list Feature;
  currentPage : Z
}.

Definition initial : State := {| currentTableData := []; currentPage := 1 |}.

Definition pageSize : Z := 10.

(** [Math.ceil(a / b)] for a whole [a] and a positive whole [b]. *)
Definition Math_ceil_div (a b : Z) : Z := - ((- a) / b).

Definition totalPages (st : State) : Z :=
  Math_ceil_div (Z.of_nat (length (currentTableData st))) pageSize.

(** [Array.prototype.slice(start, end)], negative indices counting from
    the end. *)
Definition slice {A} (start end_ : Z) (l : list A) : list A :=
  let len := Z.of_nat (length l) in
  let k := if start <? 0 then Z.max (len + start) 0 else Z.min start len in
  let final := if end_ <? 0 then Z.max (len + end_) 0 else Z.min end_ len in
  take (Z.to_nat (final - k)) (drop (Z.to_nat k) l).

(** The rows [updateTable] binds to the table body. *)
Definition pageData (st : State) : list Feature :=
  let start := (currentPage st - 1) * pageSize in
  let end_ := start + pageSize in
  slice start end_ (currentTableData st).

(** What [renderPagination] leaves in the container: nothing, or the Prev
    button, the page numbers with their active flag, and the Next button. *)
Record Pagination := {
  prev_disabled : bool;
  page_numbers : list (Z * bool);
  next_disabled : bool
}.

Definition renderPagination (st : State) : option Pagination :=
  let totalPages := totalPages st in
  if totalPages <=? 1 then None
  else Some {| prev_disabled := currentPage st =? 1;
               page_numbers := (λ p, (p, p =? currentPage st)) <$>
                                 seqZ 1 totalPages;
               next_disabled := currentPage st =? totalPages |}.

(** The click handlers installed by [renderPagination]; [totalPages] and
    [p] are the values captured when the controls were rendered. *)
Definition click_prev (st : State) : State :=
  if 1 <? currentPage st
  then {| currentTableData := currentTableData st; currentPage := currentPage st - 1 |}
  else st.

Definition click_next (totalPages : Z) (st : State) : State :=
  if currentPage st <? totalPages
  then {| currentTableData := currentTableData st; currentPage := currentPage st + 1 |}
  else st.

Definition click_page (p : Z) (st : State) : State :=
  {| currentTableData := currentTableData st; currentPage := p |}.

(** [updateDashboard(condition)] on the pagination variables. [None] is a
    [TypeError] thrown before either variable is assigned: the condition
    has no totals, or no mapping. *)
Definition updateDashboard (data : Dataset) (condition : string) : option State :=
  match condition_totals data !! condition with
  | None => None
  | Some _ =>
      match derive_features data condition with
      | None => None
      | Some features =>
          Some {| currentTableData := table_order features; currentPage := 1 |}
      end
  end.

(** User and load events. *)
Inductive event :=
| LoadComplete
| Change (condition : string)
| ClickPrev
| ClickNext
| ClickPage (p : Z).

(** [Object.keys(data.condition_data).sort()] *)
Definition conditions (data : Dataset) : list string :=
  merge_sort String.le (elements (dom (condition_data data))).

(** One event handled to completion. A click is possible only on a control
    that [renderPagination] has put on the page for the current state. *)
Inductive step (data : Dataset) : State → event → State → Prop :=
| step_load st cond st' :
    head (conditions data) = Some cond →
    updateDashboard data cond = Some st' →
    step data st LoadComplete st'
| step_load_throws st :
    (∀ cond, head (conditions data) = Some cond → updateDashboard data cond = None) →
    step data st LoadComplete st
| step_change st cond st' :
    updateDashboard data cond = Some st' →
    step data st (Change cond) st'
| step_change_throws st cond :
    updateDashboard data cond = None →
    step data st (Change cond) st
| step_prev st view :
    renderPagination st = Some view →
    step data st ClickPrev (click_prev st)
| step_next st view :
    renderPagination st = Some view →
    step data st ClickNext (click_next (totalPages st) st)
| step_page st view p active :
    renderPagination st = Some view →
    (p, active) ∈ page_numbers view →
    step data st (ClickPage p) (click_page p st).

(** The range of the pagination cursor:
    [1 ≤ currentPage ≤ max(ceiling(length / 10), 1)]. *)
Definition cursor_in_range (st : State) : Prop :=
  1 ≤ currentPage st ≤ Z.max (totalPages st) 1.

(** The clicks on the pagination controls. *)
Definition is_navigation (ev : event) : bool :=
  match ev with
  | ClickPrev | ClickNext | ClickPage _ => true
  | LoadComplete | Change _ => false
  end.

(** The states of a session: the script starts in [initial], the load event
    comes first, user events follow. *)
Inductive reachable (data : Dataset) : State → Prop :=
| reach_loaded st : step data initial LoadComplete st → reachable data st
| reach_step st ev st' :
    reachable data st → ev ≠ LoadComplete → step data st ev st' → reachable data st'.

End Dashboard.

(** ** Sample extracts *)

Module Examples.
Import Interchange Aggregator.

Definition stroke : string := "Number of patients on register|Stroke".
Definition stroke_1 : string := "Number of patients on register|Stroke.1".
Definition stroke_rate : string :=
  "Prevalence per 1000 patients using full list|Stroke".
Definition list_size : string := "Practice List Size".


(** Three practices and a register audited twice: the second practice has no
    patients, the third has no value in the repeated column. *)
Definition df_repeated : data_frame :=
  {| names := ["Practice Id"; list_size; stroke; stroke_1; stroke_rate];
     rows :=
       [ {| Practice_Id := "P1";
            cells := list_to_map [(list_size, 1000%Q); (stroke, 4%Q);
                                  (stroke_1, 2%Q); (stroke_rate, 6%Q)] |};
         {| Practice_Id := "P2";
            cells := list_to_map [(list_size, 500%Q); (stroke, 0%Q)] |};
         {| Practice_Id := "P3";
            cells := list_to_map [(list_size, 1500%Q); (stroke, 3%Q);
                                  (stroke_rate, 2%Q)] |} ] |}.

(** The practice details sheet and the postcode table. *)
Definition details : list Geocoder.practice_row :=
  [ {| Geocoder.Practice_ID := "P1"; Geocoder.PracticeName := "Alpha";
       Geocoder.Postcode := "BT1 1AA" |};
    {| Geocoder.Practice_ID := "P2"; Geocoder.PracticeName := "Beta";
       Geocoder.Postcode := "BT2 2BB" |};
    {| Geocoder.Practice_ID := "P3"; Geocoder.PracticeName := "Gamma";
       Geocoder.Postcode := "BT9 9ZZ" |} ].

Definition postcodes : list Geocoder.postcode_row :=
  [ {| Geocoder.pc_Postcode := "BT1 1AA";
       Geocoder.pc_Latitude := Some (546 # 10)%Q;
       Geocoder.pc_Longitude := Some (-59 # 10)%Q |};
    {| Geocoder.pc_Postcode := "BT2 2BB";
       Geocoder.pc_Latitude := Some (545 # 10)%Q;
       Geocoder.pc_Longitude := Some (-60 # 10)%Q |} ].

(** The document the dashboard loads for [df_repeated], the practice
    directory in the order in which the script fills it. *)
Definition emitted : Emitter.output := Emitter.emit df_repeated details postcodes.

Definition document : Dashboard.Dataset :=
  {| Dashboard.practice_info :=
       [ ("P1", {| name := "Alpha"; latitude := Some (546 # 10)%Q;
                   longitude := Some (-59 # 10)%Q |});
         ("P2", {| name := "Beta"; latitude := Some (545 # 10)%Q;
                   longitude := Some (-60 # 10)%Q |});
         ("P3", {| name := "Gamma"; latitude := None; longitude := None |}) ];
     Dashboard.condition_totals := Emitter.condition_totals emitted;
     Dashboard.condition_data := Emitter.condition_data emitted |}.

(** Three practices with patient counts 50, 50 and 30. *)
Definition feature (pid : string) (n : Z) : Dashboard.Feature :=
  {| Dashboard.feature_id := pid; Dashboard.feature_name := pid;
     Dashboard.feature_latitude := Dashboard.Num (546 # 10);
     Dashboard.feature_longitude := Dashboard.Num (-59 # 10);
     Dashboard.prevalence := None; Dashboard.prevalence50 := None;
     Dashboard.feature_patients := n |}.

Definition features_ABC : list Dashboard.Feature :=
  [feature "A" 50; feature "B" 50; feature "C" 30].

(** A document with 23 located practices, all with stroke patients. *)
Definition pid_23 (i : nat) : string := String (ascii_of_nat (65 + i)) "".

Definition document_23 : Dashboard.Dataset :=
  {| Dashboard.practice_info :=
       (λ i, (pid_23 i, {| name := pid_23 i; latitude := Some (546 # 10)%Q;
                           longitude := Some (-59 # 10)%Q |})) <$> seq 0 23;
     Dashboard.condition_totals :=
       {[ "Stroke" := {| total_patients := 276;
                         totals_prevalence_per_1000 := None;
                         totals_prevalence_over50_per_1000 := None |} ]};
     Dashboard.condition_data :=
       {[ "Stroke" :=
            list_to_map ((λ i, (pid_23 i,
                                {| patients := Z.of_nat (S i);
                                   prevalence_per_1000 := None;
                                   prevalence_over50_per_1000 := None |}))
                           <$> seq 0 23) ]} |}.

(** A table of 23 rows, on its first and on its last page. *)
Definition rows_23 : list Dashboard.Feature :=
  (λ i, feature "row" (Z.of_nat i)) <$> seq 0 23.

Definition table_23 (page : Z) : Dashboard.State :=
  {| Dashboard.currentTableData := rows_23; Dashboard.currentPage := page |}.

(** The session on [document_23]: the state after the load event and the
    state after a click on Next. *)
Definition loaded_23 : Dashboard.State :=
  {| Dashboard.currentTableData :=
       default [] (Dashboard.table_order <$>
                     Dashboard.derive_features document_23 "Stroke");
     Dashboard.currentPage := 1 |}.

Definition second_23 : Dashboard.State :=
  Dashboard.click_next (Dashboard.totalPages loaded_23) loaded_23.

(** Two header rows over three columns, the last two blank in both rows. *)
Definition blank_headers : list (option string * option string) :=
  [(None, Some "Practice Id"); (None, None); (None, None)].



End Examples.

(** ** Shapes of strings used in the statements *)

Module Shape.
Import Str.

(** No [|] in the string. *)
Definition bar_free (s : string) : bool :=
  forallb (λ c, negb (Ascii.eqb c "|")) (chars s).


(** Neither the first nor the last character is white space. *)
Definition is_trimmed (s : string) : bool :=
  match chars s with
  | [] => true
  | c :: t => negb (is_space c) && negb (is_space (List.last t c))
  end.


End Shape.

(** ** Spatial renderer (dashboard script, [updateMap]) *)

Module SpatialRenderer.
Import Dashboard.

(** The functions of the D3 library that [updateMap] calls, as far as the
    script uses their results. *)
Record QuantileScale := {
  scale_fill : option Q → string;      (* [colourScale(value)] *)
  scale_quantiles : list (option Q)    (* [colourScale.quantiles()]; a
                                          threshold is undefined when the
                                          domain holds no number *)
}.

Record D3 := {
  projection : number → number → number * number;
  polygonHull : list (number * number) → option (list (number * number));
  scaleQuantile : list (option Q) → list string → QuantileScale;
  renderCell : list (number * number) → nat → string
}.

Definition purplePalette : list string :=
  ["#efedf5"; "#dadaeb"; "#bcbddc"; "#9e9ac8"; "#807dba"; "#6a51a3"; "#54278f"].

(** [d3.min(values)]: null values are skipped, the result is undefined
    ([None]) when no value is left; a later value replaces the minimum only
    when it is strictly smaller. *)
Definition d3_min (values : list (option Q)) : option Q :=
  fold_left (λ min value,
               match value, min with
               | None, _ => min
               | Some v, None => Some v
               | Some v, Some m => if Qle_bool m v then Some m else Some v
               end) values None.

(** [d3.max(values)] *)
Definition d3_max (values : list (option Q)) : option Q :=
  fold_left (λ max value,
               match value, max with
               | None, _ => max
               | Some v, None => Some v
               | Some v, Some m => if Qle_bool v m then Some m else Some v
               end) values None.

Record LegendBin := {
  bin_colour : string;
  bin_min : option Q;
  bin_max : option Q
}.

(** [quantiles[i]]: reading outside the array gives [undefined], as does an
    undefined threshold. *)
Definition threshold (quantiles : list (option Q)) (i : nat) : option Q :=
  mjoin (quantiles !! i).

(** The loop that builds the legend bins, one per colour. *)
Definition legend_bins (colours : list string) (quantiles : list (option Q))
    (prevalenceValues : list (option Q)) : list LegendBin :=
  imap (λ i colour,
          {| bin_colour := colour;
             bin_min := if Nat.eqb i 0 then d3_min prevalenceValues
                        else threshold quantiles (i - 1);
             bin_max := if Nat.ltb i (length quantiles) then threshold quantiles i
                        else d3_max prevalenceValues |}) colours.

Record Cell := {
  cell_feature : Feature;
  cell_path : string;
  cell_fill : string
}.

(** What [updateMap] draws or leaves on the page: the paths of the map, the
    outline, the legend rows, and the tooltip elements appended to the
    body. *)
Record MapPage := {
  map_cells : list Cell;
  map_outline : option (list (number * number));
  legend : list LegendBin;
  tooltips : nat
}.

Definition updateMap (d3 : D3) (pointsData : list Feature) (page : MapPage)
  : MapPage :=
  match pointsData with
  | [] =>
      (* the drawing is emptied, then the function returns *)
      {| map_cells := []; map_outline := None;
         legend := legend page; tooltips := tooltips page |}
  | _ =>
      let projectedPoints :=
        (λ d, projection d3 (feature_longitude d) (feature_latitude d))
          <$> pointsData in
      let hullPoints := polygonHull d3 projectedPoints in
      let prevalenceValues := prevalence <$> pointsData in
      let colourScale := scaleQuantile d3 prevalenceValues purplePalette in
      {| map_cells :=
           imap (λ i d, {| cell_feature := d;
                            cell_path := renderCell d3 projectedPoints i;
                            cell_fill := scale_fill colourScale (prevalence d) |})
             pointsData;
         map_outline := hullPoints;
         legend := legend_bins purplePalette (scale_quantiles colourScale)
                     prevalenceValues;
         tooltips := S (tooltips page) |}
  end.

End SpatialRenderer.

(** ** Sample data for the spatial renderer *)

Module MapExamples.
Import Dashboard SpatialRenderer.

(** A stand-in for the library: it projects to the coordinates themselves,
    draws no outline, and splits at six fixed thresholds. *)
Definition d3 : D3 :=
  {| projection := λ lon lat, (lon, lat);
     polygonHull := λ _, None;
     scaleQuantile := λ _ _, {| scale_fill := λ _, "#efedf5";
                                scale_quantiles :=
                                  Some <$> [1; 2; 3; 4; 5; 6]%Q |};
     renderCell := λ _ _, "" |}.

Definition blank : MapPage :=
  {| map_cells := []; map_outline := None; legend := []; tooltips := 0 |}.

End MapExamples.

(** ** From the emitted list to the loaded document *)

Module Pipeline.


End Pipeline.

(** ** The dashboard without pagination (script.js) *)

Module Unpaginated.
Import Dashboard.

(** [updateDashboard(condition)] of the script without pagination, with the
    same score cards and the same feature loop: the rows it passes to
    [updateTable], which binds all of them to the table body, and the
    features it passes to [updateMap]. [None] is the [TypeError]. *)
Definition updateDashboard (data : Dataset) (condition : string)
  : option (list Feature * list Feature) :=
  match condition_totals data !! condition with
  | None => None
  | Some _ =>
      match derive_features data condition with
      | None => None
      | Some features =>
          let sortedFeatures := table_order features in
          Some (sortedFeatures, features)
      end
  end.

End Unpaginated.

(** * Properties *)

(** ** Strings *)

Section StrFacts.
Import Str.

Lemma chars_app (a b : string) : chars (a +:+ b) = chars a ++ chars b.
Proof. induction a as [|c a IH]; simpl; [done | by rewrite IH]. Qed.

Lemma str_app_assoc (a b c : string) : (a +:+ b) +:+ c = a +:+ b +:+ c.
Proof.
  induction a as [|x a IH]; [done|].
  change (String x ((a +:+ b) +:+ c) = String x (a +:+ b +:+ c)).
  by rewrite IH.
Qed.

Lemma of_chars_chars (s : string) : of_chars (chars s) = s.
Proof. apply string_of_list_ascii_of_string. Qed.


Lemma forallb_app_false {A} (f : A → bool) (l1 l2 : list A) (x : A) :
  f x = false → forallb f (l1 ++ x :: l2) = false.
Proof.
  intros Hx. rewrite forallb_app. simpl. rewrite Hx.
  by rewrite andb_false_r.
Qed.

Lemma forallb_rev {A} (f : A → bool) (l : list A) :
  forallb f (rev l) = forallb f l.
Proof.
  induction l as [|x l IH]; simpl; [done|].
  rewrite forallb_app, IH. simpl. rewrite andb_true_r. apply andb_comm.
Qed.

(** A pattern that matches the suffix [suf], and no longer suffix of
    [pre ++ suf], cuts exactly [suf] off. *)
Lemma cut_at_suffix (matches : list ascii → bool) (pre suf : list ascii) :
  matches suf = true →
  (∀ c l, matches (c :: l ++ suf) = false) →
  cut_at matches (pre ++ suf) = pre.
Proof.
  intros Hsuf Hno. induction pre as [|c pre IH]; simpl.
  - destruct suf as [|d suf]; [done|]. simpl. by rewrite Hsuf.
  - rewrite Hno. by rewrite IH.
Qed.

(** Without a match anywhere the string is left as it is. *)
Lemma cut_at_no_match (matches : list ascii → bool) (l : list ascii) :
  (∀ l1 l2, l = l1 ++ l2 → matches l2 = false) →
  cut_at matches l = l.
Proof.
  induction l as [|c l IH]; intros Hno; simpl; [done|].
  rewrite (Hno [] (c :: l) eq_refl). f_equal. apply IH.
  intros l1 l2 ->. apply (Hno (c :: l1) l2). done.
Qed.

Lemma is_digits_spec (s : string) :
  is_digits s = true → chars s ≠ [] ∧ forallb is_digit (chars s) = true.
Proof.
  unfold is_digits. intros [Hne Hall]%andb_true_iff. split; [|done].
  destruct s; simpl in *; [discriminate | done].
Qed.

Lemma at_dot_digits_suffix (ds : list ascii) :
  ds ≠ [] → forallb is_digit ds = true →
  at_dot_digits ("."%char :: ds) = true.
Proof.
  intros Hne Hall. simpl. rewrite Hall. destruct ds; [done | reflexivity].
Qed.

Lemma at_dot_digits_longer (c : ascii) (l ds : list ascii) :
  at_dot_digits (c :: l ++ "."%char :: ds) = false.
Proof.
  simpl. rewrite forallb_app_false; [|reflexivity].
  by rewrite andb_false_r.
Qed.

Lemma at_space_digits_plus_suffix (ds : list ascii) :
  ds ≠ [] → forallb is_digit ds = true →
  at_space_digits_plus (" "%char :: ds ++ ["+"%char]) = true.
Proof.
  intros Hne Hall. simpl. rewrite rev_app_distr. simpl.
  rewrite length_rev, forallb_rev, Hall.
  destruct ds; [done | reflexivity].
Qed.

Lemma at_space_digits_plus_longer (c : ascii) (l ds : list ascii) :
  at_space_digits_plus (c :: l ++ " "%char :: ds ++ ["+"%char]) = false.
Proof.
  simpl. rewrite !rev_app_distr. simpl. rewrite rev_app_distr. simpl.
  rewrite <- app_assoc. simpl.
  rewrite forallb_app_false; [|reflexivity].
  by rewrite !andb_false_r.
Qed.

(** A string that ends in [+] has no repetition suffix. *)
Lemma at_dot_digits_plus_end (l : list ascii) :
  at_dot_digits (l ++ ["+"%char]) = false.
Proof.
  destruct l as [|c l]; simpl; [done|].
  rewrite forallb_app_false; [|reflexivity].
  by rewrite andb_false_r.
Qed.

End StrFacts.

(** ** Base-condition derivation *)

Section CleanRegisterName.
Import Str Aggregator.

Lemma str_replace_repetition_suffix (base digits : string) :
  is_digits digits = true →
  str_replace_repetition (base +:+ "." +:+ digits) = base.
Proof.
  intros [Hne Hall]%is_digits_spec. unfold str_replace_repetition.
  rewrite !chars_app. change (chars ".") with ["."%char]. simpl.
  rewrite cut_at_suffix.
  - apply of_chars_chars.
  - by apply at_dot_digits_suffix.
  - intros c l. apply at_dot_digits_longer.
Qed.

Lemma str_replace_age_band_suffix (base digits : string) :
  is_digits digits = true →
  str_replace_age_band (base +:+ " " +:+ digits +:+ "+") = base.
Proof.
  intros [Hne Hall]%is_digits_spec. unfold str_replace_age_band.
  rewrite !chars_app. change (chars " ") with [" "%char].
  change (chars "+") with ["+"%char]. simpl.
  rewrite cut_at_suffix.
  - apply of_chars_chars.
  - by apply at_space_digits_plus_suffix.
  - intros c l. apply at_space_digits_plus_longer.
Qed.

Lemma str_replace_repetition_plus_end (x : string) :
  str_replace_repetition (x +:+ "+") = x +:+ "+".
Proof.
  unfold str_replace_repetition.
  rewrite cut_at_no_match; [apply of_chars_chars|].
  intros l1 l2. rewrite chars_app. change (chars "+") with ["+"%char].
  intros Heq. destruct l2 as [|c l2] using rev_ind; [done|].
  rewrite app_assoc in Heq. apply app_inj_tail in Heq as [_ <-].
  apply at_dot_digits_plus_end.
Qed.



End CleanRegisterName.

(** ** Header collapse and column de-duplication *)

Section HeaderCollapse.
Import Str Normalizer.

Lemma eqb_empty_false (a : string) : a ≠ "" → (a =? "")%string = false.
Proof. intros Ha. by apply String.eqb_neq. Qed.

Lemma canonical_key_cases (a b : string) :
  (a ≠ "" → b ≠ "" → canonical_key a b = a +:+ "|" +:+ b) ∧
  (a ≠ "" → b = "" → canonical_key a b = a) ∧
  (a = "" → b ≠ "" → canonical_key a b = b) ∧
  (a = "" → b = "" → canonical_key a b = "").
Proof.
  unfold canonical_key. repeat split.
  - intros Ha Hb. by rewrite !eqb_empty_false.
  - intros Ha ->. by rewrite eqb_empty_false.
  - intros -> Hb. simpl. by rewrite eqb_empty_false.
  - by intros -> ->.
Qed.

Context {A : Type}.
Implicit Types (cols : list (string * A)) (seen : list string).

Lemma dedup_from_cons seen c cols :
  dedup_from seen (c :: cols) =
    if bool_decide (c.1 ∈ seen) then dedup_from (c.1 :: seen) cols
    else c :: dedup_from (c.1 :: seen) cols.
Proof. unfold dedup_from. simpl. by destruct (bool_decide (c.1 ∈ seen)). Qed.

Lemma dedup_from_elem seen cols c :
  c ∈ dedup_from seen cols → c ∈ cols ∧ c.1 ∉ seen.
Proof.
  revert seen. induction cols as [|d cols IH]; intros seen.
  - unfold dedup_from. simpl. intros Hin. by apply elem_of_nil in Hin.
  - rewrite dedup_from_cons. case_bool_decide as Hd.
    + intros [Hin Hns]%IH. split; [by right|].
      intros Hs. apply Hns. by right.
    + intros [->|[Hin Hns]%IH]%elem_of_cons.
      * split; [by left | done].
      * split; [by right|]. intros Hs. apply Hns. by right.
Qed.

Lemma dedup_from_NoDup seen cols : NoDup (fst <$> dedup_from seen cols).
Proof.
  revert seen. induction cols as [|d cols IH]; intros seen.
  - unfold dedup_from. simpl. constructor.
  - rewrite dedup_from_cons. case_bool_decide as Hd; [apply IH|].
    rewrite fmap_cons. constructor; [|apply IH].
    intros (c & Hc & Hin%dedup_from_elem)%list_elem_of_fmap.
    destruct Hin as [_ Hns]. rewrite <- Hc in Hns. apply Hns. by left.
Qed.

(** A column is kept exactly when no column before it has its name and its
    name was not seen before. *)
Lemma dedup_from_first seen cols k v :
  (k, v) ∈ dedup_from seen cols ↔
  (k ∉ seen) ∧ ∃ l1 l2, cols = l1 ++ (k, v) :: l2 ∧ k ∉ (fst <$> l1).
Proof.
  revert seen. induction cols as [|d cols IH]; intros seen.
  - unfold dedup_from. simpl. split.
    + intros Hin. by apply elem_of_nil in Hin.
    + intros (_ & l1 & l2 & Heq & _). by destruct l1.
  - rewrite dedup_from_cons. split.
    + intros Hin.
      assert ((k, v) ∈ dedup_from (d.1 :: seen) cols ∨ ((d.1 ∉ seen) ∧ d = (k, v)))
        as [Hrest|[Hd ->]].
      { case_bool_decide; [by left|].
        apply elem_of_cons in Hin as [->|?]; [by right | by left]. }
      * apply IH in Hrest as (Hns & l1 & l2 & -> & Hl1).
        apply not_elem_of_cons in Hns as [Hne Hns].
        split; [done|]. exists (d :: l1), l2. split; [done|].
        rewrite fmap_cons. by apply not_elem_of_cons.
      * split; [done|]. exists [], cols. split; [done|]. apply not_elem_of_nil.
    + intros (Hns & l1 & l2 & Heq & Hl1). destruct l1 as [|e l1].
      * simpl in Heq. injection Heq as -> ->. simpl.
        rewrite bool_decide_eq_false_2 by done. by left.
      * simpl in Heq. injection Heq as -> ->.
        rewrite fmap_cons in Hl1. apply not_elem_of_cons in Hl1 as [Hne Hl1].
        assert ((k, v) ∈ dedup_from (e.1 :: seen) (l1 ++ (k, v) :: l2)) as Hrest.
        { apply IH. split; [by apply not_elem_of_cons|]. by exists l1, l2. }
        case_bool_decide; [done | by right].
Qed.

Lemma drop_duplicate_columns_first cols k v :
  (k, v) ∈ drop_duplicate_columns cols ↔
  ∃ l1 l2, cols = l1 ++ (k, v) :: l2 ∧ k ∉ (fst <$> l1).
Proof.
  change (drop_duplicate_columns cols) with (dedup_from [] cols).
  rewrite dedup_from_first. split; [by intros [_ ?]|].
  intros ?. split; [apply not_elem_of_nil | done].
Qed.

(** Every name of the sheet is still the name of a kept column. *)
Lemma drop_duplicate_columns_names cols k :
  k ∈ fst <$> cols → k ∈ fst <$> drop_duplicate_columns cols.
Proof.
  induction cols as [|c cols IH] using rev_ind; [by intros ?%elem_of_nil|].
  rewrite fmap_app. simpl.
  destruct (decide (k ∈ fst <$> cols)) as [Hin|Hnin].
  - intros _. apply IH in Hin.
    apply list_elem_of_fmap in Hin as ([k' v] & -> & Hin). simpl.
    apply drop_duplicate_columns_first in Hin as (l1 & l2 & -> & Hl1).
    apply list_elem_of_fmap. exists (k', v). split; [done|].
    apply drop_duplicate_columns_first. exists l1, (l2 ++ [c]).
    split; [by rewrite <- app_assoc | done].
  - intros [?| ->%list_elem_of_singleton]%elem_of_app; [done|].
    apply list_elem_of_fmap. exists c. split; [done|]. destruct c as [k v].
    apply drop_duplicate_columns_first. by exists cols, [].
Qed.

End HeaderCollapse.

Section HeaderCollapseClaim.
Import Str Normalizer.

(** C3 (as the script behaves). For the two blanked and trimmed header cells
    [a] and [b] of a column the canonical key is [a|b] when both are
    non-empty, [a] or [b] when only that one is non-empty, and the empty
    string when both are empty. After collapsing, a column is kept exactly
    when no column before it has the same key, so the kept keys are pairwise
    distinct and every key of the sheet keeps its first physical column. The
    empty key is a key like any other: when some column has it, the first
    such column is kept. *)
Theorem collapse_keeps_first_column_per_key {A : Type}
    (x1 x2 : option string) (cols : list (string * A)) :
  let a := header_cell x1 in
  let b := header_cell x2 in
  ((a ≠ "" → b ≠ "" → collapse_column (x1, x2) = a +:+ "|" +:+ b) ∧
   (a ≠ "" → b = "" → collapse_column (x1, x2) = a) ∧
   (a = "" → b ≠ "" → collapse_column (x1, x2) = b) ∧
   (a = "" → b = "" → collapse_column (x1, x2) = "")) ∧
  NoDup (fst <$> drop_duplicate_columns cols) ∧
  (∀ k v, (k, v) ∈ drop_duplicate_columns cols ↔
          ∃ l1 l2, cols = l1 ++ (k, v) :: l2 ∧ k ∉ (fst <$> l1)) ∧
  (∀ k, k ∈ (fst <$> cols) → k ∈ (fst <$> drop_duplicate_columns cols)) ∧
  ("" ∈ (fst <$> cols) → "" ∈ (fst <$> drop_duplicate_columns cols)).
Proof.
  intros a b. split; [apply canonical_key_cases|].
  split; [apply (dedup_from_NoDup [])|].
  split; [apply drop_duplicate_columns_first|].
  split; [apply drop_duplicate_columns_names|].
  apply drop_duplicate_columns_names.
Qed.

Lemma collapse_keeps_first_column_per_key_witness :
  collapse_column (Some "Number of patients on register", Some "Stroke")
    = "Number of patients on register|Stroke" ∧
  "" ∈ (fst <$> drop_duplicate_columns [("Practice Id", 0%nat); ("", 1%nat); ("", 2%nat)]).
Proof.
  pose proof (collapse_keeps_first_column_per_key
                (Some "Number of patients on register") (Some "Stroke")
                [("Practice Id", 0%nat); ("", 1%nat); ("", 2%nat)]) as H.
  cbv zeta in H. destruct H as ((Hab & _) & _ & _ & _ & Hempty).
  split.
  - apply Hab; vm_compute; discriminate.
  - apply Hempty. vm_compute. right. left.
Defined.

(** A sheet whose second and third column are blank in both header rows:
    the first blank column survives the de-duplication, so columns with an
    empty canonical key are not all dropped. *)
Lemma empty_key_column_is_kept :
  collapse_headers Examples.blank_headers = ["Practice Id"; ""; ""] ∧
  kept_names Examples.blank_headers = ["Practice Id"; ""] ∧
  ¬ (∀ k, k ∈ kept_names Examples.blank_headers → k ≠ "").
Proof.
  split; [reflexivity|]. split; [reflexivity|].
  intros H. apply (H ""); [|reflexivity].
  vm_compute. right. left.
Qed.

End HeaderCollapseClaim.

(** ** Register aggregation *)

Section AggregatorFacts.
Import Str Normalizer Interchange Aggregator.










End AggregatorFacts.

Section RowLoop.
Import Str Normalizer Interchange Aggregator.

Variables pt_cols pr_cols ss_cols : list string.

Local Abbreviation step := (row_step pt_cols pr_cols ss_cols).
Local Abbreviation pts r := (sum_na_rm (row_values r pt_cols)).






End RowLoop.

Section AggregatorRun.
Import Str Normalizer Interchange Aggregator.

Lemma run_fold_data (df : data_frame) (l : list string) (acc : aggregate)
    (C : string) :
  condition_data (fold_left (condition_step df) l acc) !! C =
    if decide (C ∈ l) then Some (per_condition df C).2 else condition_data acc !! C.
Proof.
  revert acc. induction l as [|b l IH]; intros acc; cbn [fold_left].
  - rewrite decide_False; [done | apply not_elem_of_nil].
  - rewrite IH. cbn [condition_step condition_data condition_totals].
    destruct (decide (C ∈ l)) as [Hl|Hl].
    + rewrite decide_True; [done | by right].
    + destruct (decide (b = C)) as [->|Hne].
      * rewrite lookup_insert_eq, decide_True; [done | by left].
      * rewrite lookup_insert_ne by done. rewrite decide_False; [done|].
        intros [?|?]%elem_of_cons; congruence.
Qed.

Lemma run_fold_totals (df : data_frame) (l : list string) (acc : aggregate)
    (C : string) :
  condition_totals (fold_left (condition_step df) l acc) !! C =
    if decide (C ∈ l) then Some (totals_of df (per_condition df C).1)
    else condition_totals acc !! C.
Proof.
  revert acc. induction l as [|b l IH]; intros acc; cbn [fold_left].
  - rewrite decide_False; [done | apply not_elem_of_nil].
  - rewrite IH. cbn [condition_step condition_data condition_totals].
    destruct (decide (C ∈ l)) as [Hl|Hl].
    + rewrite decide_True; [done | by right].
    + destruct (decide (b = C)) as [->|Hne].
      * rewrite lookup_insert_eq, decide_True; [done | by left].
      * rewrite lookup_insert_ne by done. rewrite decide_False; [done|].
        intros [?|?]%elem_of_cons; congruence.
Qed.



(** Both lists of the result have the same conditions. *)
Lemma run_same_conditions (df : data_frame) (C : string) :
  is_Some (condition_data (run df) !! C) ↔ is_Some (condition_totals (run df) !! C).
Proof.
  unfold run. rewrite run_fold_data, run_fold_totals.
  case_decide; [split; by eexists|].
  simpl. rewrite !lookup_empty. split; by intros [? ?].
Qed.



End AggregatorRun.

Section AggregatorClaims.
Import Str Normalizer Interchange Aggregator.





End AggregatorClaims.

(** ** National rates *)

Section NationalRates.
Import Str Normalizer Interchange Aggregator.


Lemma round_half_even_comp (x y : Q) :
  x == y → round_half_even x = round_half_even y.
Proof.
  intros H. unfold round_half_even. rewrite (Qfloor_comp x y H).
  assert ((x - inject_Z (Qfloor y) ?= 1 # 2) = (y - inject_Z (Qfloor y) ?= 1 # 2))%Q
    as ->; [|done].
  apply Qcompare_comp; [|reflexivity]. by apply Qplus_comp.
Qed.











End NationalRates.

(** ** Key consistency of the emitted document *)

Section KeyConsistency.
Import Interchange.






End KeyConsistency.

(** ** Feature derivation *)

Section FeatureDerivation.
Import Interchange Dashboard.

(** Unary plus never yields [NaN] on a coordinate of the document. *)
Lemma to_number_not_NaN (v : option Q) : isNaN (to_number v) = false.
Proof. by destruct v. Qed.


Lemma feature_of_id (per : gmap string ConditionMetric)
    (entry : string * PracticeInfo) (f : Feature) :
  feature_of per entry = Some f →
  feature_id f = entry.1 ∧
  feature_latitude f = to_number (latitude entry.2) ∧
  feature_longitude f = to_number (longitude entry.2).
Proof.
  destruct entry as [pid info]. unfold feature_of.
  destruct (per !! pid) as [condData|]; [|done].
  rewrite !to_number_not_NaN. simpl. by intros [= <-].
Qed.

(** An unmatched postcode leaves both coordinates [NA]. *)
Lemma join_row_unmatched (pdf : list (string * (Q * Q))) (r : Geocoder.practice_row) :
  (∀ e, e ∈ pdf → e.1 ≠ Str.str_trim (Geocoder.Postcode r)) →
  Geocoder.join_row pdf r =
    (Geocoder.Practice_ID r,
     {| name := Geocoder.PracticeName r; latitude := None; longitude := None |}).
Proof.
  intros Hno. unfold Geocoder.join_row.
  destruct (find _ pdf) as [e|] eqn:E; [|done].
  apply find_some in E as [Hin He%bool_decide_eq_true_1].
  exfalso. by apply (Hno e); [apply list_elem_of_In|].
Qed.

(** The sample document is what the script emits for the sample extract. *)
Lemma document_is_emitted :
  list_to_map (practice_info Examples.document)
    = Emitter.practice_info Examples.emitted ∧
  condition_totals Examples.document = Emitter.condition_totals Examples.emitted ∧
  condition_data Examples.document = Emitter.condition_data Examples.emitted.
Proof. split; [vm_compute; reflexivity|]. split; reflexivity. Qed.

(** C6 (the script at a practice without coordinates). Practice P3 of the
    sample extract has a postcode without a match: the emitter stores it with
    latitude and longitude both null. It has stroke patients, and the
    dashboard derives a Feature for it, at latitude 0 and longitude 0: the
    coordinate test [isNaN(+null)] is false. A practice with null coordinates
    and data for the active condition does appear in the Feature list. *)
Theorem null_coordinates_still_yield_feature :
  Emitter.practice_info Examples.emitted !! "P3"
    = Some {| name := "Gamma"; latitude := None; longitude := None |} ∧
  derive_features Examples.document "Stroke"
    = Some [ {| feature_id := "P1"; feature_name := "Alpha";
                feature_latitude := Num (546 # 10);
                feature_longitude := Num (-59 # 10);
                prevalence := Some (Aggregator.round 6 10);
                prevalence50 := None; feature_patients := 6 |};
             {| feature_id := "P3"; feature_name := "Gamma";
                feature_latitude := Num 0; feature_longitude := Num 0;
                prevalence := Some (Aggregator.round 2 10);
                prevalence50 := None; feature_patients := 3 |} ].
Proof. split; vm_compute; reflexivity. Qed.


End FeatureDerivation.

(** ** Table ordering *)

Section TableOrder.
Import Dashboard.

Context {A : Type} (key : A → Z).

Local Abbreviation by_key := (λ a b, descending (key a) (key b)).
Local Abbreviation has_key k := (λ a, key a =? k).

Lemma descending_after (a b : Z) : (0 <? descending a b) = (a <? b).
Proof.
  unfold descending.
  destruct (b <? a) eqn:E1; destruct (a <? b) eqn:E2; try reflexivity; lia.
Qed.

Lemma insert_sorted_cons (x y : A) (l : list A) :
  insert_sorted by_key x (y :: l) =
    if key x <? key y then y :: insert_sorted by_key x l else x :: y :: l.
Proof. simpl. by rewrite descending_after. Qed.

Lemma insert_sorted_perm (x : A) (l : list A) :
  Permutation (insert_sorted by_key x l) (x :: l).
Proof.
  induction l as [|y l IH]; [done|]. rewrite insert_sorted_cons.
  destruct (key x <? key y); [|done].
  rewrite IH. apply perm_swap.
Qed.

Lemma sort_perm (l : list A) : Permutation (sort by_key l) l.
Proof.
  induction l as [|x l IH]; simpl; [done|].
  by rewrite insert_sorted_perm, IH.
Qed.

(** Insertion passes only elements with a strictly larger key, so among
    elements of one key the new element comes first. *)
Lemma insert_sorted_filter (k : Z) (x : A) (l : list A) :
  List.filter (has_key k) (insert_sorted by_key x l)
    = List.filter (has_key k) (x :: l).
Proof.
  induction l as [|y l IH]; [done|]. rewrite insert_sorted_cons.
  destruct (key x <? key y) eqn:E; [|done].
  simpl in *. rewrite IH.
  destruct (key x =? k) eqn:Ex; destruct (key y =? k) eqn:Ey; try done. lia.
Qed.

Lemma sort_filter (k : Z) (l : list A) :
  List.filter (has_key k) (sort by_key l) = List.filter (has_key k) l.
Proof.
  induction l as [|x l IH]; [done|].
  change (sort by_key (x :: l)) with (insert_sorted by_key x (sort by_key l)).
  rewrite insert_sorted_filter. simpl. by rewrite IH.
Qed.

Lemma insert_sorted_descending (x : A) (l : list A) :
  StronglySorted (λ a b, key b ≤ key a) l →
  StronglySorted (λ a b, key b ≤ key a) (insert_sorted by_key x l).
Proof.
  induction 1 as [|y l Hl IH Hy]; [repeat constructor|].
  rewrite insert_sorted_cons. destruct (key x <? key y) eqn:E.
  - constructor; [done|].
    rewrite insert_sorted_perm. constructor; [lia | done].
  - constructor; [by constructor|].
    constructor; [lia|]. eapply Forall_impl; [exact Hy|]. simpl. lia.
Qed.

Lemma sort_descending (l : list A) :
  StronglySorted (λ a b, key b ≤ key a) (sort by_key l).
Proof.
  induction l as [|x l IH]; [constructor|].
  by apply insert_sorted_descending.
Qed.

(** A descending list is determined by its elements of each key, taken in
    order: two stable arrangements of the same list in descending order are
    the same list. *)
Lemma descending_stable_unique (l1 l2 : list A) :
  StronglySorted (λ a b, key b ≤ key a) l1 →
  StronglySorted (λ a b, key b ≤ key a) l2 →
  (∀ k, List.filter (has_key k) l1 = List.filter (has_key k) l2) →
  l1 = l2.
Proof.
  intros H1. revert l2. induction H1 as [|x l1 Hs1 IH Hx]; intros l2 H2 Hf.
  - destruct l2 as [|y l2]; [done|].
    specialize (Hf (key y)). simpl in Hf. by rewrite Z.eqb_refl in Hf.
  - destruct H2 as [|y l2 Hs2 Hy].
    { specialize (Hf (key x)). simpl in Hf. by rewrite Z.eqb_refl in Hf. }
    assert (key x = key y) as Hk.
    { apply Z.le_antisymm.
      - pose proof (Hf (key x)) as Hfx. simpl in Hfx. rewrite Z.eqb_refl in Hfx.
        destruct (key y =? key x) eqn:E; [lia|].
        assert (In x (List.filter (has_key (key x)) l2)) as Hin
          by (rewrite <- Hfx; by left).
        apply filter_In in Hin as [Hin _].
        rewrite Forall_forall in Hy. apply Hy. by apply list_elem_of_In.
      - pose proof (Hf (key y)) as Hfy. simpl in Hfy. rewrite Z.eqb_refl in Hfy.
        destruct (key x =? key y) eqn:E; [lia|].
        assert (In y (List.filter (has_key (key y)) l1)) as Hin
          by (rewrite Hfy; by left).
        apply filter_In in Hin as [Hin _].
        rewrite Forall_forall in Hx. apply Hx. by apply list_elem_of_In. }
    pose proof (Hf (key x)) as Hfx. simpl in Hfx.
    rewrite <- Hk, Z.eqb_refl in Hfx. injection Hfx as -> Hrest.
    f_equal. apply IH; [done|]. intros k. specialize (Hf k). simpl in Hf.
    destruct (key y =? k) eqn:E; [|done]. by injection Hf.
Qed.

End TableOrder.

Section TableOrderClaim.
Import Dashboard.

(** C7. The table ordering is a rearrangement of the feature list in
    descending order of patient count, and it is stable: for every count,
    the features with that count appear in the table in their order of
    encounter. It is the only list with these properties, whatever stable
    sorting method computes it. Three features A, B, C with counts 50, 50,
    30, encountered in that order, stay in the order A, B, C. *)
Theorem table_order_is_stable_descending (features : list Feature) :
  Permutation (table_order features) features ∧
  StronglySorted (λ a b, feature_patients b ≤ feature_patients a)
    (table_order features) ∧
  (∀ k, List.filter (λ f, feature_patients f =? k) (table_order features)
        = List.filter (λ f, feature_patients f =? k) features) ∧
  (∀ sorted,
     StronglySorted (λ a b, feature_patients b ≤ feature_patients a) sorted →
     (∀ k, List.filter (λ f, feature_patients f =? k) sorted
           = List.filter (λ f, feature_patients f =? k) features) →
     sorted = table_order features) ∧
  (∀ a b c, feature_patients a = 50 → feature_patients b = 50 →
            feature_patients c = 30 → table_order [a; b; c] = [a; b; c]).
Proof.
  split; [apply sort_perm|]. split; [apply sort_descending|].
  split; [intros k; apply sort_filter|].
  split.
  { intros sorted Hsorted Hstable.
    apply (descending_stable_unique feature_patients); [done | apply sort_descending|].
    intros k. rewrite Hstable. symmetry. apply sort_filter. }
  intros a b c Ha Hb Hc. unfold table_order, sort.
  cbn [foldr insert_sorted]. rewrite Hb, Hc.
  change (0 <? descending 50 30) with false. cbn [insert_sorted].
  rewrite Ha, Hb. reflexivity.
Qed.

Lemma table_order_is_stable_descending_witness :
  table_order Examples.features_ABC = Examples.features_ABC.
Proof.
  destruct (table_order_is_stable_descending Examples.features_ABC)
    as (_ & _ & _ & _ & Hexample).
  apply Hexample; reflexivity.
Defined.

End TableOrderClaim.

(** ** Pagination *)

Section Pagination.
Import Dashboard.

Implicit Types st : State.

(** [Math.ceil(a / 10)] is the least whole number of tens that covers [a]. *)
Lemma Math_ceil_div_spec (a : Z) :
  10 * (Math_ceil_div a 10 - 1) < a ≤ 10 * Math_ceil_div a 10.
Proof.
  unfold Math_ceil_div.
  pose proof (Z.div_mod (- a) 10). pose proof (Z.mod_pos_bound (- a) 10). lia.
Qed.

Lemma totalPages_spec st :
  let n := Z.of_nat (length (currentTableData st)) in
  10 * (totalPages st - 1) < n ≤ 10 * totalPages st.
Proof. apply Math_ceil_div_spec. Qed.

Lemma totalPages_nonneg st : 0 ≤ totalPages st.
Proof. pose proof (totalPages_spec st) as H. simpl in H. lia. Qed.

Lemma renderPagination_None st :
  renderPagination st = None ↔ totalPages st ≤ 1.
Proof.
  unfold renderPagination. destruct (totalPages st <=? 1) eqn:E; split; try done; lia.
Qed.

Lemma renderPagination_Some st view :
  renderPagination st = Some view →
  1 < totalPages st ∧
  (prev_disabled view = true ↔ currentPage st = 1) ∧
  (next_disabled view = true ↔ currentPage st = totalPages st) ∧
  page_numbers view = (λ p, (p, p =? currentPage st)) <$> seqZ 1 (totalPages st).
Proof.
  unfold renderPagination. destruct (totalPages st <=? 1) eqn:E; [done|].
  intros [= <-]. simpl. split; [lia|]. split; [lia|]. split; [lia | done].
Qed.

(** The page numbers on display are [1 .. totalPages]. *)
Lemma page_numbers_range st view p active :
  renderPagination st = Some view →
  (p, active) ∈ page_numbers view → 1 ≤ p ≤ totalPages st.
Proof.
  intros (_ & _ & _ & ->)%renderPagination_Some.
  intros (q & [= -> ->] & Hq%elem_of_seqZ)%list_elem_of_fmap. lia.
Qed.

Lemma click_prev_first st : currentPage st ≤ 1 → click_prev st = st.
Proof. unfold click_prev. intros H. destruct (1 <? currentPage st) eqn:E; [lia | done]. Qed.

Lemma click_next_last st :
  totalPages st ≤ currentPage st → click_next (totalPages st) st = st.
Proof.
  unfold click_next. intros H.
  destruct (currentPage st <? totalPages st) eqn:E; [lia | done].
Qed.

Lemma slice_length {A} (start end_ : Z) (l : list A) :
  0 ≤ start ≤ end_ →
  Z.of_nat (length (slice start end_ l))
    = Z.max 0 (Z.min end_ (Z.of_nat (length l)) - start).
Proof.
  intros H. unfold slice.
  destruct (start <? 0) eqn:E1; [lia|]. destruct (end_ <? 0) eqn:E2; [lia|].
  rewrite length_take, length_drop. lia.
Qed.

(** The rows of a page in range: ten rows from row [10 * (p - 1)] on, fewer
    at the end of the table. *)
Lemma pageData_rows st :
  1 ≤ currentPage st →
  pageData st
    = take 10 (drop (Z.to_nat (10 * (currentPage st - 1))) (currentTableData st)).
Proof.
  intros H. unfold pageData, slice, pageSize.
  set (n := Z.of_nat (length (currentTableData st))).
  set (start := (currentPage st - 1) * 10).
  destruct (start <? 0) eqn:E1; [lia|].
  destruct (start + 10 <? 0) eqn:E2; [lia|].
  destruct (decide (start ≤ n)) as [Hle|Hgt].
  - rewrite (Z.min_l start n) by lia.
    replace (Z.to_nat (10 * (currentPage st - 1))) with (Z.to_nat start) by lia.
    destruct (decide (start + 10 ≤ n)) as [Hfull|Hpart].
    + rewrite Z.min_l by lia. f_equal. lia.
    + rewrite Z.min_r by lia.
      rewrite !take_ge; [done | |]; rewrite length_drop; lia.
  - rewrite !Z.min_r by lia. rewrite Z.sub_diag. simpl.
    rewrite !drop_ge by lia. by rewrite take_nil.
Qed.

(** C8. Pagination has the fixed page size 10 and
    [ceiling(n / 10)] pages for [n] rows; the current page is 1-based, the
    rows of page [p] starting at row [10 * (p - 1)]; Prev on page 1 and Next
    on the last page leave the state as it is; the pagination control is
    omitted exactly when there is at most one page; when it is shown, Prev is
    disabled exactly on page 1 and Next exactly on the last page. 23 rows
    give 3 pages, and page 3 shows 3 rows. *)
Theorem pagination_contract st :
  let n := Z.of_nat (length (currentTableData st)) in
  pageSize = 10 ∧
  10 * (totalPages st - 1) < n ≤ 10 * totalPages st ∧
  currentPage initial = 1 ∧
  (1 ≤ currentPage st →
   pageData st
   = take 10 (drop (Z.to_nat (10 * (currentPage st - 1))) (currentTableData st))) ∧
  (currentPage st ≤ 1 → click_prev st = st) ∧
  (totalPages st ≤ currentPage st → click_next (totalPages st) st = st) ∧
  (renderPagination st = None ↔ totalPages st ≤ 1) ∧
  (∀ view, renderPagination st = Some view →
     (prev_disabled view = true ↔ currentPage st = 1) ∧
     (next_disabled view = true ↔ currentPage st = totalPages st)) ∧
  (n = 23 →
   totalPages st = 3 ∧ (currentPage st = 3 → length (pageData st) = 3%nat)).
Proof.
  intros n. split; [done|]. split; [apply totalPages_spec|]. split; [done|].
  split; [apply pageData_rows|]. split; [apply click_prev_first|].
  split; [apply click_next_last|]. split; [apply renderPagination_None|].
  split.
  - intros view (_ & Hprev & Hnext & _)%renderPagination_Some. done.
  - intros Hn. pose proof (totalPages_spec st) as Ht. fold n in Ht. simpl in Ht.
    split; [lia|]. intros Hp.
    apply Nat2Z.inj. unfold pageData, pageSize. rewrite slice_length by lia.
    fold n. lia.
Qed.

Lemma pagination_contract_witness :
  totalPages (Examples.table_23 3) = 3 ∧
  length (pageData (Examples.table_23 3)) = 3%nat ∧
  click_next (totalPages (Examples.table_23 3)) (Examples.table_23 3)
    = Examples.table_23 3 ∧
  click_prev (Examples.table_23 1) = Examples.table_23 1.
Proof.
  pose proof (pagination_contract (Examples.table_23 3)) as H3.
  pose proof (pagination_contract (Examples.table_23 1)) as H1.
  cbv zeta in H3, H1.
  destruct H3 as (_ & _ & _ & _ & _ & Hnext & _ & _ & H23).
  destruct H1 as (_ & _ & _ & _ & Hprev & _).
  destruct H23 as [Hpages Hrows]; [reflexivity|].
  split; [exact Hpages|]. split; [apply Hrows; reflexivity|].
  split; [apply Hnext; vm_compute; discriminate|].
  apply Hprev. simpl. lia.
Defined.

End Pagination.

(** ** The pagination cursor stays in range *)

Section Cursor.
Import Dashboard.

Lemma initial_in_range : cursor_in_range initial.
Proof. unfold cursor_in_range. simpl. vm_compute. split; discriminate. Qed.

Lemma updateDashboard_first_page (data : Dataset) (condition : string) (st : State) :
  updateDashboard data condition = Some st → currentPage st = 1.
Proof.
  unfold updateDashboard.
  destruct (condition_totals data !! condition); [|done].
  destruct (derive_features data condition); [|done].
  by intros [= <-].
Qed.

Lemma first_page_in_range (st : State) : currentPage st = 1 → cursor_in_range st.
Proof. unfold cursor_in_range. lia. Qed.

(** A handler leaves the feature list alone or goes back to page 1, and it
    keeps the cursor in range. *)
Lemma step_cursor (data : Dataset) (st : State) (ev : event) (st' : State) :
  step data st ev st' →
  cursor_in_range st →
  (currentTableData st' = currentTableData st ∨ currentPage st' = 1) ∧
  cursor_in_range st' ∧
  (is_navigation ev = true →
   currentTableData st' = currentTableData st ∧
   1 ≤ currentPage st' ≤ totalPages st').
Proof.
  intros Hstep Hin.
  destruct Hstep as [st cond st' _ Hup | st _ | st cond st' Hup | st cond _
                    | st view Hview | st view Hview | st view p active Hview Hp].
  - apply updateDashboard_first_page in Hup.
    split; [by right|]. split; [by apply first_page_in_range | done].
  - split; [by left | done].
  - apply updateDashboard_first_page in Hup.
    split; [by right|]. split; [by apply first_page_in_range | done].
  - split; [by left | done].
  - apply renderPagination_Some in Hview as [Hpages _].
    unfold cursor_in_range, click_prev, totalPages in *.
    destruct (1 <? currentPage st) eqn:E; simpl;
      (split; [by left|]; split; [lia|]; intros _; split; [done | lia]).
  - apply renderPagination_Some in Hview as [Hpages _].
    unfold cursor_in_range, click_next, totalPages in *.
    destruct (currentPage st <? _) eqn:E; simpl;
      (split; [by left|]; split; [lia|]; intros _; split; [done | lia]).
  - pose proof (page_numbers_range st view p active Hview Hp) as Hrange.
    unfold cursor_in_range, click_page, totalPages in *. simpl.
    split; [by left|]. split; [lia|]. intros _. split; [done | lia].
Qed.

(** C10. After the load event and after every later event handler the
    pagination cursor satisfies
    [1 ≤ currentPage ≤ max(ceiling(currentTableData.length / 10), 1)].
    A handler that changes the feature list puts the cursor on page 1, and a
    click on a pagination control leaves the feature list as it is and the
    cursor on one of the pages [1 .. totalPages]. *)
Theorem cursor_stays_in_range (data : Dataset) (st : State) :
  reachable data st →
  cursor_in_range st ∧
  ∀ ev st', step data st ev st' →
    cursor_in_range st' ∧
    (currentTableData st' ≠ currentTableData st → currentPage st' = 1) ∧
    (is_navigation ev = true →
     currentTableData st' = currentTableData st ∧
     1 ≤ currentPage st' ≤ totalPages st').
Proof.
  intros Hreach.
  assert (cursor_in_range st) as Hin.
  { induction Hreach as [st Hload | st ev st' _ IH _ Hstep].
    - by apply (step_cursor data initial LoadComplete st Hload initial_in_range).
    - by apply (step_cursor data st ev st' Hstep IH). }
  split; [done|]. intros ev st' Hstep.
  destruct (step_cursor data st ev st' Hstep Hin) as (Hsame & Hin' & Hnav).
  split; [done|]. split; [|done].
  intros Hchanged. by destruct Hsame.
Qed.

(** A session on the sample document of 23 practices: after the load event
    and a click on Next the cursor is on page 2 of 3, and a click on the page
    number 3 is handled within the range. *)
Lemma cursor_stays_in_range_witness :
  cursor_in_range Examples.second_23 ∧
  cursor_in_range (click_page 3 Examples.second_23).
Proof.
  assert (reachable Examples.document_23 Examples.loaded_23) as Hloaded.
  { apply reach_loaded. apply (step_load _ _ "Stroke"); vm_compute; reflexivity. }
  assert (renderPagination Examples.loaded_23
          = Some {| prev_disabled := true;
                    page_numbers := [(1, true); (2, false); (3, false)];
                    next_disabled := false |}) as Hview by (vm_compute; reflexivity).
  assert (reachable Examples.document_23 Examples.second_23) as Hsecond.
  { apply (reach_step _ Examples.loaded_23 ClickNext); [done | discriminate|].
    by eapply step_next. }
  destruct (cursor_stays_in_range _ _ Hsecond) as [Hin Hnext].
  split; [exact Hin|].
  assert (step Examples.document_23 Examples.second_23
            (ClickPage 3) (click_page 3 Examples.second_23)) as Hthird.
  { apply (step_page _ _ {| prev_disabled := false;
                            page_numbers := [(1, false); (2, true); (3, false)];
                            next_disabled := false |} 3 false).
    - vm_compute. reflexivity.
    - right. right. left. }
  exact (proj1 (Hnext _ _ Hthird)).
Defined.

End Cursor.

(** * Further properties of the scripts *)

(** ** Trimming *)

Section Trimming.
Import Str Shape.

Lemma drop_space_split (l : list ascii) :
  ∃ pre, l = pre ++ drop_space l ∧ forallb is_space pre = true.
Proof.
  induction l as [|c l (pre & Hl & Hpre)]; [by exists []|]. simpl.
  destruct (is_space c) eqn:E; [|by exists []].
  exists (c :: pre). simpl. rewrite E, Hpre. split; [by f_equal | done].
Qed.

Lemma drop_space_head (l : list ascii) (c : ascii) (t : list ascii) :
  drop_space l = c :: t → is_space c = false.
Proof.
  induction l as [|d l IH]; [done|]. simpl.
  destruct (is_space d) eqn:E; [done|]. by intros [= <- _].
Qed.

Lemma drop_space_fixed (c : ascii) (t : list ascii) :
  is_space c = false → drop_space (c :: t) = c :: t.
Proof. intros E. simpl. by rewrite E. Qed.



(** The trimmed characters: nothing, or a list whose two ends are not
    white space. *)
Lemma trim_chars_ends (l : list ascii) :
  trim_chars l = [] ∨
  ∃ c t, trim_chars l = c :: t ∧ is_space c = false ∧
         is_space (List.last t c) = false.
Proof.
  unfold trim_chars.
  destruct (drop_space l) as [|c1 t1] eqn:E1; [by left|].
  pose proof (drop_space_head _ _ _ E1) as Hc1.
  destruct (drop_space (rev (c1 :: t1))) as [|c2 t2] eqn:E2; [by left|].
  pose proof (drop_space_head _ _ _ E2) as Hc2.
  destruct (drop_space_split (rev (c1 :: t1))) as (pre & Hrev & _).
  rewrite E2 in Hrev.
  assert (c1 :: t1 = rev (c2 :: t2) ++ rev pre) as Hl.
  { rewrite <- rev_app_distr, <- Hrev. by rewrite rev_involutive. }
  right. destruct (rev (c2 :: t2)) as [|c t] eqn:E3.
  { apply (f_equal (@length ascii)) in E3. rewrite length_rev in E3. done. }
  simpl in Hl. injection Hl as -> _.
  exists c, t. split; [done|]. split; [done|].
  assert (List.last (c :: t) c = c2) as Hlast.
  { rewrite <- E3. simpl. by rewrite last_last. }
  simpl in Hlast. destruct t as [|d t]; [by subst|].
  by rewrite <- Hlast in Hc2.
Qed.

Lemma rev_drop_space_rev (c : ascii) (t : list ascii) :
  is_space (List.last t c) = false →
  rev (drop_space (rev (c :: t))) = c :: t.
Proof.
  intros Hlast.
  destruct (rev (c :: t)) as [|d u] eqn:E.
  { apply (f_equal (@length ascii)) in E. rewrite length_rev in E. done. }
  assert (List.last (c :: t) c = d) as Hd.
  { rewrite <- (rev_involutive (c :: t)), E. simpl. by rewrite last_last. }
  assert (List.last (c :: t) c = List.last t c) as Hsame by (by destruct t).
  rewrite Hsame in Hd. rewrite Hd in Hlast.
  rewrite drop_space_fixed by done. rewrite <- E. apply rev_involutive.
Qed.

Lemma trim_chars_fixed (c : ascii) (t : list ascii) :
  is_space c = false → is_space (List.last t c) = false →
  trim_chars (c :: t) = c :: t.
Proof.
  intros Hc Hlast. unfold trim_chars. rewrite drop_space_fixed by done.
  by apply rev_drop_space_rev.
Qed.

Lemma trim_chars_idempotent (l : list ascii) :
  trim_chars (trim_chars l) = trim_chars l.
Proof.
  destruct (trim_chars_ends l) as [->|(c & t & -> & Hc & Hlast)]; [done|].
  by apply trim_chars_fixed.
Qed.




Lemma str_trim_fixed (s : string) : is_trimmed s = true → str_trim s = s.
Proof.
  unfold is_trimmed, str_trim. destruct (chars s) as [|c t] eqn:E.
  - intros _. rewrite <- (of_chars_chars s), E. done.
  - intros [Hc Hl]%andb_true_iff. apply negb_true_iff in Hc, Hl.
    rewrite trim_chars_fixed by done. rewrite <- E. apply of_chars_chars.
Qed.


End Trimming.

(** ** Header cells and keys *)

Section HeaderCells.
Import Str Shape Normalizer.




End HeaderCells.

(** ** Register portion of a key *)

Section RegisterPortion.
Import Str Shape Normalizer Aggregator.

Lemma split_bar_free (cur l : list ascii) :
  forallb (λ c, negb (Ascii.eqb c "|")) l = true →
  split_bar cur l = [rev cur ++ l].
Proof.
  revert cur. induction l as [|c l IH]; intros cur; simpl.
  - intros _. by rewrite app_nil_r.
  - intros [Hc Hl]%andb_true_iff. apply negb_true_iff in Hc. rewrite Hc.
    rewrite IH by done. simpl. by rewrite <- app_assoc.
Qed.

Lemma split_bar_at_bar (cur l1 l2 : list ascii) :
  forallb (λ c, negb (Ascii.eqb c "|")) l1 = true →
  split_bar cur (l1 ++ "|"%char :: l2) = (rev cur ++ l1) :: split_bar [] l2.
Proof.
  revert cur. induction l1 as [|c l1 IH]; intros cur; simpl.
  - intros _. by rewrite app_nil_r.
  - intros [Hc Hl]%andb_true_iff. apply negb_true_iff in Hc. rewrite Hc.
    rewrite IH by done. simpl. by rewrite <- app_assoc.
Qed.

Lemma str_split_bar_key (a b : string) :
  bar_free a = true → str_split_bar (a +:+ "|" +:+ b) = a :: str_split_bar b.
Proof.
  intros Ha. unfold str_split_bar. rewrite !chars_app.
  change (chars "|") with ["|"%char]. simpl.
  rewrite split_bar_at_bar by done. simpl. by rewrite of_chars_chars.
Qed.

Lemma str_split_bar_free (a : string) : bar_free a = true → str_split_bar a = [a].
Proof.
  intros Ha. unfold str_split_bar. rewrite split_bar_free by done.
  simpl. by rewrite of_chars_chars.
Qed.

(** X2. The register portion of a key [category|register] whose category
    has no bar is the text of the register up to its first bar, the whole
    register when it has none; a key without any bar has no register portion
    ([NA]). *)
Theorem register_portion_of_key (a b : string) :
  bar_free a = true →
  register_portion (a +:+ "|" +:+ b) = head (str_split_bar b) ∧
  (bar_free b = true → register_portion (a +:+ "|" +:+ b) = Some b) ∧
  register_portion a = None.
Proof.
  intros Ha. unfold register_portion. rewrite str_split_bar_key by done.
  split; [by destruct (str_split_bar b)|]. split.
  - intros Hb. by rewrite str_split_bar_free.
  - by rewrite str_split_bar_free.
Qed.

Lemma register_portion_of_key_witness :
  register_portion ("Number of patients on register" +:+ "|" +:+ "Stroke.1")
    = Some "Stroke.1".
Proof.
  apply (register_portion_of_key "Number of patients on register" "Stroke.1");
    reflexivity.
Defined.

End RegisterPortion.

(** ** Column roles and conditions *)

Section Roles.
Import Str Shape Normalizer Interchange Aggregator.







Lemma length_omap_le {A B} (f : A → option B) (l : list A) :
  (length (omap f l) ≤ length l)%nat.
Proof.
  induction l as [|x l IH]; simpl; [lia|]. unfold omap in IH.
  destruct (f x); simpl; lia.
Qed.

(** X4. The row filter keeps exactly the sheet rows that have a practice id
    other than ["Northern Ireland"], with their cells as they are: a row
    without an id and the summary row never reach the aggregation, and the
    filter never lengthens the table. *)
Theorem filter_rows_keeps_practices (rs : list sheet_row) (r : row) :
  (r ∈ filter_rows rs ↔
     ∃ sr, sr ∈ rs ∧ sheet_id sr = Some (Practice_Id r) ∧
           Practice_Id r ≠ "Northern Ireland" ∧ cells r = sheet_cells sr) ∧
  (length (filter_rows rs) ≤ length rs)%nat.
Proof.
  unfold filter_rows. split; [|apply length_omap_le].
  rewrite list_elem_of_omap. split.
  - intros (sr & Hsr & Hr). exists sr. split; [done|].
    destruct (sheet_id sr) as [pid|]; [|done].
    destruct (pid =? "Northern Ireland")%string eqn:E; [done|].
    apply String.eqb_neq in E. by injection Hr as <-.
  - intros (sr & Hsr & Hid & Hne & Hcells). exists sr. split; [done|].
    rewrite Hid. apply String.eqb_neq in Hne. rewrite Hne.
    destruct r as [pid c]. simpl in *. by subst.
Qed.

End Roles.

Section Conditions.
Import Str Shape Normalizer Interchange Aggregator.








End Conditions.

(** ** Entries and totals of a condition *)

Section Entries.
Import Str Shape Normalizer Interchange Aggregator.



Variables pt_cols pr_cols ss_cols : list string.

Local Abbreviation step := (row_step pt_cols pr_cols ss_cols).
Local Abbreviation pts r := (sum_na_rm (row_values r pt_cols)).
Local Abbreviation metric r :=
  {| patients := as_integer (pts r);
     prevalence_per_1000 := (λ v, round v 10) <$> mean_or_na (row_values r pr_cols);
     prevalence_over50_per_1000 :=
       (λ v, round v 10) <$> mean_or_na (row_values r ss_cols) |}.





End Entries.

Section EntriesOfDataset.
Import Str Shape Normalizer Interchange Aggregator.





End EntriesOfDataset.

(** ** Means and stored rates *)

Section Rates.
Import Str Shape Normalizer Interchange Aggregator.

Lemma fold_Qplus_bounds (vs : list Q) (a lo hi : Q) :
  Forall (λ v, lo <= v <= hi)%Q vs →
  (a + inject_Z (Z.of_nat (length vs)) * lo <= fold_left Qplus vs a
   ∧ fold_left Qplus vs a <= a + inject_Z (Z.of_nat (length vs)) * hi)%Q.
Proof.
  intros Hvs. revert a. induction Hvs as [|v vs [Hlo Hhi] _ IH]; intros a.
  - cbn [fold_left length]. change (inject_Z (Z.of_nat 0)) with 0%Q. split; lra.
  - cbn [fold_left length]. destruct (IH (a + v)%Q) as [IHlo IHhi].
    rewrite Nat2Z.inj_succ, <- Z.add_1_r, inject_Z_plus.
    change (inject_Z 1) with 1%Q. split; lra.
Qed.

Lemma omap_id_elem (xs : list (option Q)) (v : Q) :
  v ∈ omap id xs ↔ Some v ∈ xs.
Proof.
  rewrite list_elem_of_omap. split.
  - intros (x & Hx & Hv). simpl in Hv. by subst.
  - intros Hv. by exists (Some v).
Qed.

(** X8. The rate stored for a practice is null exactly when every mapped
    rate cell of its row is missing; otherwise the mean of the non-missing
    cells lies between the smallest and the largest of them, so repeated
    columns that agree give back their common value. *)
Theorem mean_of_rates_between (xs : list (option Q)) :
  (mean_or_na xs = None ↔ ∀ x, x ∈ xs → x = None) ∧
  (∀ m lo hi, mean_or_na xs = Some m →
     (∀ v, Some v ∈ xs → lo <= v <= hi)%Q → (lo <= m <= hi)%Q).
Proof.
  unfold mean_or_na. split.
  - destruct (omap id xs) as [|v vs] eqn:E.
    + split; [|done]. intros _ [v|] Hx; [|done].
      apply omap_id_elem in Hx. rewrite E in Hx. by apply elem_of_nil in Hx.
    + split; [done|]. intros Hall.
      assert (Some v ∈ xs) as Hv by (apply omap_id_elem; rewrite E; by left).
      by apply Hall in Hv.
  - intros m lo hi Hm Hbounds.
    destruct (omap id xs) as [|v vs] eqn:E; [done|]. injection Hm as <-.
    assert (Forall (λ v, lo <= v <= hi)%Q (v :: vs)) as Hall.
    { apply Forall_forall. intros w Hw. apply Hbounds, omap_id_elem. by rewrite E. }
    destruct (fold_Qplus_bounds (v :: vs) 0 lo hi Hall) as [Hlo Hhi].
    unfold mean. set (n := inject_Z (Z.of_nat (length (v :: vs)))) in *.
    assert (0 < n)%Q as Hn.
    { unfold n. change 0%Q with (inject_Z 0). rewrite <- Zlt_Qlt. simpl. lia. }
    split.
    + apply Qle_shift_div_l; [done|]. lra.
    + apply Qle_shift_div_r; [done|]. lra.
Qed.



End Rates.

(** ** Base names: what is not stripped *)

Section CleanRegisterNameEdges.
Import Str Shape Normalizer Aggregator.


Lemma at_space_digits_plus_last (l : list ascii) :
  at_space_digits_plus l = true → ∃ t, rev l = "+"%char :: t.
Proof.
  destruct l as [|d t]; [done|]. simpl. intros [_ H]%andb_true_iff.
  destruct (rev t) as [|p ds]; [done|].
  apply andb_true_iff in H as [[Hp%Ascii.eqb_eq _]%andb_true_iff _]. subst p.
  by exists (ds ++ [d]).
Qed.

Lemma rev_suffix_head (l l1 l2 : list ascii) (c : ascii) (t : list ascii) :
  l = l1 ++ l2 → rev l2 = c :: t → ∃ u, rev l = c :: u.
Proof.
  intros -> H. rewrite rev_app_distr, H. simpl. by eexists.
Qed.


(** A string whose last character is not [+] has no age band. *)
Lemma str_replace_age_band_none (x : string) :
  (∀ t, rev (chars x) ≠ "+"%char :: t) →
  str_replace_age_band x = x.
Proof.
  intros Hlast. unfold str_replace_age_band.
  rewrite cut_at_no_match; [apply of_chars_chars|].
  intros l1 l2 Hx. destruct (at_space_digits_plus l2) eqn:E; [|done].
  apply at_space_digits_plus_last in E as [t Hrev].
  destruct (rev_suffix_head _ _ _ _ _ Hx Hrev) as [u Hu].
  by apply Hlast in Hu.
Qed.

Lemma rev_chars_digits (base n : string) :
  is_digits n = true →
  ∃ c t, rev (chars (base +:+ "." +:+ n)) = c :: t ∧ is_digit c = true.
Proof.
  intros [Hne Hall]%is_digits_spec. rewrite !chars_app, !rev_app_distr.
  rewrite <- forallb_rev in Hall.
  destruct (rev (chars n)) as [|c u] eqn:E.
  { apply (f_equal (@length ascii)) in E. rewrite length_rev in E.
    by destruct (chars n). }
  simpl in Hall. apply andb_true_iff in Hall as [Hc _].
  exists c. eexists. split; [|done]. simpl. reflexivity.
Qed.


(** X11. At most one suffix of each kind is removed, the repetition suffix
    first: of two repetition suffixes only the last is removed, and a
    repetition suffix in front of an age band stays. *)
Theorem clean_register_name_strips_once (base n m : string) :
  is_digits n = true → is_digits m = true →
  clean_register_name ((base +:+ "." +:+ n) +:+ "." +:+ m)
    = str_trim (base +:+ "." +:+ n) ∧
  clean_register_name ((base +:+ "." +:+ n) +:+ " " +:+ m +:+ "+")
    = str_trim (base +:+ "." +:+ n).
Proof.
  intros Hn Hm. unfold clean_register_name. split.
  - rewrite str_replace_repetition_suffix by done.
    rewrite str_replace_age_band_none; [done|].
    intros t Ht. destruct (rev_chars_digits base n Hn) as (c & u & Hrev & Hc).
    rewrite Hrev in Ht. injection Ht as -> _. done.
  - generalize (base +:+ "." +:+ n). intros B.
    replace (B +:+ " " +:+ m +:+ "+") with ((B +:+ " " +:+ m) +:+ "+")
      by (by rewrite !str_app_assoc).
    rewrite str_replace_repetition_plus_end, !str_app_assoc.
    by rewrite str_replace_age_band_suffix.
Qed.

Lemma clean_register_name_strips_once_witness :
  clean_register_name (("Stroke" +:+ "." +:+ "1") +:+ "." +:+ "2") = "Stroke.1" ∧
  clean_register_name (("Stroke" +:+ "." +:+ "1") +:+ " " +:+ "17" +:+ "+")
    = "Stroke.1".
Proof.
  split.
  - apply (clean_register_name_strips_once "Stroke" "1" "2"); reflexivity.
  - apply (clean_register_name_strips_once "Stroke" "1" "17"); reflexivity.
Defined.

End CleanRegisterNameEdges.

(** ** Postcode table and practice directory *)

Section Directory.
Import Str Shape Interchange Geocoder.

Implicit Types (rs : list (string * (Q * Q))) (seen : list string).

Lemma distinct_from_first seen rs (p : string) (c : Q * Q) :
  (p, c) ∈ distinct_from seen rs ↔
  (p ∉ seen) ∧ ∃ l1 l2, rs = l1 ++ (p, c) :: l2 ∧ p ∉ (fst <$> l1).
Proof.
  revert seen. induction rs as [|e rs IH]; intros seen; simpl.
  - split; [by intros ?%elem_of_nil|]. intros (_ & l1 & l2 & Heq & _). by destruct l1.
  - split.
    + intros Hin.
      assert (((e.1 ∈ seen) ∧ (p, c) ∈ distinct_from seen rs) ∨
              ((e.1 ∉ seen) ∧ (e = (p, c) ∨ (p, c) ∈ distinct_from (e.1 :: seen) rs)))
        as [[He Hrest]|[He [->|Hrest]]].
      { case_bool_decide; [by left|]. right. split; [done|].
        by apply elem_of_cons in Hin as [->|?]; [left | right]. }
      * apply IH in Hrest as (Hs & l1 & l2 & -> & Hl1). split; [done|].
        exists (e :: l1), l2. split; [done|].
        rewrite fmap_cons, not_elem_of_cons. split; [|done]. intros ->. done.
      * split; [done|]. exists [], rs. split; [done | apply not_elem_of_nil].
      * apply IH in Hrest as (Hs & l1 & l2 & -> & Hl1).
        apply not_elem_of_cons in Hs as [Hne Hs]. split; [done|].
        exists (e :: l1), l2. split; [done|].
        rewrite fmap_cons, not_elem_of_cons. done.
    + intros (Hs & l1 & l2 & Heq & Hl1). destruct l1 as [|e' l1].
      * simpl in Heq. injection Heq as -> ->. simpl.
        rewrite bool_decide_eq_false_2 by done. by left.
      * simpl in Heq. injection Heq as -> ->.
        rewrite fmap_cons, not_elem_of_cons in Hl1. destruct Hl1 as [Hne Hl1].
        case_bool_decide.
        -- apply IH. split; [done|]. by exists l1, l2.
        -- right. apply IH. split; [by apply not_elem_of_cons|]. by exists l1, l2.
Qed.

Lemma distinct_from_NoDup seen rs : NoDup (fst <$> distinct_from seen rs).
Proof.
  revert seen. induction rs as [|e rs IH]; intros seen; simpl; [constructor|].
  case_bool_decide as He; [apply IH|].
  rewrite fmap_cons. constructor; [|apply IH].
  intros ([p c] & Hp & Hin)%list_elem_of_fmap. simpl in Hp.
  apply distinct_from_first in Hin as [Hs _].
  apply Hs. subst p. by left.
Qed.

Lemma located_elem (pcs : list postcode_row) (e : string * (Q * Q)) :
  e ∈ located pcs ↔
  ∃ row, row ∈ pcs ∧ pc_Latitude row = Some e.2.1 ∧
         pc_Longitude row = Some e.2.2 ∧ e.1 = str_trim (pc_Postcode row).
Proof.
  unfold located. rewrite list_elem_of_omap. split.
  - intros (row & Hrow & He). exists row. split; [done|].
    destruct (pc_Latitude row), (pc_Longitude row); try done.
    by injection He as <-.
  - intros (row & Hrow & Hla & Hlo & Hp). exists row. split; [done|].
    rewrite Hla, Hlo. destruct e as [p [la lo]]. simpl in *. by subst.
Qed.

(** X12. The postcode table used for the join has one row per trimmed
    postcode: the first row of that postcode among the rows that have both
    coordinates. A row that lacks a coordinate supplies nothing, also when it
    comes first. *)
Theorem postcode_table_keeps_first_located_row
    (pcs : list postcode_row) (p : string) (c : Q * Q) :
  NoDup (fst <$> postcode_df pcs) ∧
  ((p, c) ∈ postcode_df pcs ↔
     ∃ l1 l2, located pcs = l1 ++ (p, c) :: l2 ∧ p ∉ (fst <$> l1)) ∧
  ((p, c) ∈ located pcs ↔
     ∃ row, row ∈ pcs ∧ pc_Latitude row = Some c.1 ∧
            pc_Longitude row = Some c.2 ∧ p = str_trim (pc_Postcode row)).
Proof.
  unfold postcode_df. split; [apply distinct_from_NoDup|]. split.
  - rewrite distinct_from_first. split; [by intros [_ ?]|].
    intros ?. split; [apply not_elem_of_nil | done].
  - apply (located_elem pcs (p, c)).
Qed.

Lemma find_key_NoDup rs (p : string) (c : Q * Q) :
  NoDup (fst <$> rs) → (p, c) ∈ rs →
  List.find (λ e, bool_decide (e.1 = p)) rs = Some (p, c).
Proof.
  induction rs as [|e rs IH]; intros Hnd Hin; [by apply elem_of_nil in Hin|].
  rewrite fmap_cons in Hnd. apply NoDup_cons in Hnd as [He Hnd]. simpl.
  apply elem_of_cons in Hin as [<-|Hin].
  - simpl. by rewrite bool_decide_eq_true_2.
  - rewrite bool_decide_eq_false_2; [by apply IH|].
    intros Hp. apply He. rewrite Hp. apply list_elem_of_fmap. by exists (p, c).
Qed.

Lemma join_row_matched (pcs : list postcode_row) (r : practice_row) (la lo : Q) :
  (str_trim (Postcode r), (la, lo)) ∈ postcode_df pcs →
  join_row (postcode_df pcs) r =
    (Practice_ID r,
     {| name := PracticeName r; latitude := Some la; longitude := Some lo |}).
Proof.
  intros Hin. unfold join_row.
  rewrite (find_key_NoDup _ _ (la, lo)); [done| |done].
  apply distinct_from_NoDup.
Qed.

Lemma join_row_coordinates (pdf : list (string * (Q * Q))) (r : practice_row) :
  latitude (join_row pdf r).2 = None ↔ longitude (join_row pdf r).2 = None.
Proof. unfold join_row. simpl. by destruct (find _ pdf). Qed.

Local Abbreviation fill pdf :=
  (λ (acc : gmap string PracticeInfo) r,
     let e := join_row pdf r in <[e.1 := e.2]> acc).

Lemma directory_keeps_entry pdf (details : list practice_row)
    (acc : gmap string PracticeInfo) (P : string) :
  P ∉ (Practice_ID <$> details) →
  fold_left (fill pdf) details acc !! P = acc !! P.
Proof.
  revert acc. induction details as [|r details IH]; intros acc Hnin; simpl; [done|].
  rewrite fmap_cons, not_elem_of_cons in Hnin. destruct Hnin as [Hne Hnin].
  rewrite IH by done. by apply lookup_insert_ne.
Qed.

Lemma directory_entry_origin pdf (details : list practice_row)
    (acc : gmap string PracticeInfo) (P : string) (info : PracticeInfo) :
  fold_left (fill pdf) details acc !! P = Some info →
  acc !! P = Some info ∨ ∃ r, r ∈ details ∧ join_row pdf r = (P, info).
Proof.
  revert acc. induction details as [|r details IH]; intros acc; simpl; [by left|].
  intros [Hacc|(r' & Hr' & Hj)]%IH; [|right; exists r'; split; [by right | done]].
  destruct (decide (Practice_ID r = P)) as [<-|Hne].
  - rewrite lookup_insert_eq in Hacc. injection Hacc as <-.
    right. exists r. split; [by left | done].
  - rewrite lookup_insert_ne in Hacc by done. by left.
Qed.

(** X13. The directory entry of a practice id comes from the last row of
    that id in the practice details sheet: it carries that row's name, the
    coordinates of the postcode-table row whose trimmed postcode equals the
    practice's trimmed postcode, and two null coordinates when no postcode
    matches. *)
Theorem directory_entry_from_last_row
    (details : list practice_row) (pcs : list postcode_row)
    (before after : list practice_row) (r : practice_row) :
  details = before ++ r :: after →
  Practice_ID r ∉ (Practice_ID <$> after) →
  ∃ info, practice_info details pcs !! Practice_ID r = Some info ∧
    name info = PracticeName r ∧
    (∀ la lo, (str_trim (Postcode r), (la, lo)) ∈ postcode_df pcs →
              latitude info = Some la ∧ longitude info = Some lo) ∧
    ((∀ e, e ∈ postcode_df pcs → e.1 ≠ str_trim (Postcode r)) →
     latitude info = None ∧ longitude info = None).
Proof.
  intros -> Hafter. exists (join_row (postcode_df pcs) r).2. split.
  - unfold practice_info. rewrite fold_left_app. cbn [fold_left].
    rewrite directory_keeps_entry by done. apply lookup_insert_eq.
  - split; [done|]. split.
    + intros la lo Hin. by rewrite (join_row_matched pcs r la lo Hin).
    + intros Hno. by rewrite (join_row_unmatched _ r Hno).
Qed.

Lemma directory_entry_from_last_row_witness :
  ∃ info, practice_info Examples.details Examples.postcodes !! "P2" = Some info ∧
    name info = "Beta" ∧
    (∀ la lo, ("BT2 2BB", (la, lo)) ∈ postcode_df Examples.postcodes →
              latitude info = Some la ∧ longitude info = Some lo) ∧
    ((∀ e, e ∈ postcode_df Examples.postcodes → e.1 ≠ "BT2 2BB") →
     latitude info = None ∧ longitude info = None).
Proof.
  apply (directory_entry_from_last_row Examples.details Examples.postcodes
           (take 1 Examples.details) (drop 2 Examples.details)
           {| Practice_ID := "P2"; PracticeName := "Beta"; Postcode := "BT2 2BB" |}).
  - reflexivity.
  - vm_compute. intros Hin. apply list_elem_of_singleton in Hin. discriminate.
Defined.

(** X14. Every entry of the practice directory has both coordinates or
    neither, and carries the name of a row of the practice details sheet
    with its id. *)
Theorem directory_coordinates_come_in_pairs
    (details : list practice_row) (pcs : list postcode_row)
    (P : string) (info : PracticeInfo) :
  practice_info details pcs !! P = Some info →
  (latitude info = None ↔ longitude info = None) ∧
  ∃ r, r ∈ details ∧ Practice_ID r = P ∧ name info = PracticeName r.
Proof.
  unfold practice_info. intros [Hacc|(r & Hr & Hj)]%directory_entry_origin.
  { by rewrite lookup_empty in Hacc. }
  pose proof (join_row_coordinates (postcode_df pcs) r) as Hpair.
  rewrite Hj in Hpair. split; [done|]. exists r. split; [done|].
  unfold join_row in Hj. by injection Hj as <- <-.
Qed.

Lemma directory_coordinates_come_in_pairs_witness :
  (latitude {| name := "Gamma"; latitude := None; longitude := None |} = None ↔
   longitude {| name := "Gamma"; latitude := None; longitude := None |} = None) ∧
  ∃ r, r ∈ Examples.details ∧ Practice_ID r = "P3" ∧
       name {| name := "Gamma"; latitude := None; longitude := None |}
         = PracticeName r.
Proof.
  apply (directory_coordinates_come_in_pairs Examples.details Examples.postcodes).
  vm_compute. reflexivity.
Defined.

End Directory.

(** ** Conditions and features of the dashboard *)

Section DashboardFeatures.
Import Interchange Dashboard.

(** X15. The condition list of the dashboard holds each condition of
    [condition_data] once, in ascending order, so the condition selected
    after the load is the least one. *)
Theorem conditions_sorted_without_repeats (data : Dataset) :
  StronglySorted String.le (conditions data) ∧
  NoDup (conditions data) ∧
  (∀ c, c ∈ conditions data ↔ is_Some (condition_data data !! c)) ∧
  (∀ first c, head (conditions data) = Some first → c ∈ conditions data →
              String.le first c).
Proof.
  unfold conditions.
  assert (StronglySorted String.le
            (merge_sort String.le (elements (dom (condition_data data))))) as Hs
    by (apply StronglySorted_merge_sort; apply _).
  split; [done|]. split; [|split].
  - rewrite merge_sort_Permutation. apply NoDup_elements.
  - intros c. rewrite merge_sort_Permutation, elem_of_elements. apply elem_of_dom.
  - intros first c Hhead Hc.
    destruct (merge_sort _ _) as [|x l]; [done|]. injection Hhead as ->.
    apply elem_of_cons in Hc as [->|Hc]; [done|].
    apply StronglySorted_inv in Hs as [_ Hall].
    rewrite Forall_forall in Hall. by apply Hall.
Qed.

Lemma omap_feature_sublist (per : gmap string ConditionMetric)
    (entries : list (string * PracticeInfo)) :
  (feature_id <$> omap (feature_of per) entries) `sublist_of` (fst <$> entries).
Proof.
  induction entries as [|e entries IH]; simpl; [constructor|].
  destruct (feature_of per e) as [f|] eqn:E.
  - destruct (feature_of_id per e f E) as [Hid _]. simpl. rewrite Hid.
    by apply sublist_skip.
  - by apply sublist_cons.
Qed.

Lemma feature_of_fields (per : gmap string ConditionMetric)
    (entry : string * PracticeInfo) (f : Feature) :
  feature_of per entry = Some f →
  ∃ m, per !! entry.1 = Some m ∧
       feature_name f = name entry.2 ∧
       feature_patients f = patients m ∧
       prevalence f = prevalence_per_1000 m ∧
       prevalence50 f = prevalence_over50_per_1000 m.
Proof.
  destruct entry as [pid info]. unfold feature_of. simpl.
  destruct (per !! pid) as [m|]; [|done].
  rewrite !to_number_not_NaN. simpl. intros [= <-]. by exists m.
Qed.

Lemma derive_features_omap (data : Dataset) (condition : string)
    (per : gmap string ConditionMetric) (fs : list Feature) :
  condition_data data !! condition = Some per →
  derive_features data condition = Some fs →
  fs = omap (feature_of per) (practice_info data).
Proof.
  intros Hper. unfold derive_features. rewrite Hper.
  destruct (practice_info data); by intros [= <-].
Qed.

(** X16. The features of a condition follow the order of the practice
    directory, at most one per directory entry, and each carries the name of
    its directory entry and the patient count and the two rates of its
    condition entry; a null coordinate becomes 0. *)
Theorem features_follow_directory (data : Dataset) (condition : string)
    (per : gmap string ConditionMetric) (fs : list Feature) :
  condition_data data !! condition = Some per →
  derive_features data condition = Some fs →
  (feature_id <$> fs) `sublist_of` (fst <$> practice_info data) ∧
  (length fs ≤ length (practice_info data))%nat ∧
  ∀ f, f ∈ fs →
    ∃ info m, (feature_id f, info) ∈ practice_info data ∧
      per !! feature_id f = Some m ∧
      feature_name f = name info ∧
      feature_patients f = patients m ∧
      prevalence f = prevalence_per_1000 m ∧
      prevalence50 f = prevalence_over50_per_1000 m ∧
      feature_latitude f = to_number (latitude info) ∧
      feature_longitude f = to_number (longitude info) ∧
      (latitude info = None → feature_latitude f = Num 0).
Proof.
  intros Hper Hfs. rewrite (derive_features_omap _ _ _ _ Hper Hfs).
  split; [apply omap_feature_sublist|]. split; [apply length_omap_le|].
  intros f (entry & Hentry & Hf)%list_elem_of_omap.
  destruct (feature_of_id per entry f Hf) as (Hid & Hlat & Hlon).
  destruct (feature_of_fields per entry f Hf) as (m & Hm & Hname & Hp & Hr & Hr50).
  exists entry.2, m. rewrite Hid. destruct entry as [pid info]. simpl in *.
  repeat (split; [done|]). intros Hnull. by rewrite Hlat, Hnull.
Qed.

Lemma features_follow_directory_witness :
  (feature_id <$> default [] (derive_features Examples.document "Stroke"))
    `sublist_of` (fst <$> practice_info Examples.document).
Proof.
  eapply (features_follow_directory Examples.document "Stroke").
  - vm_compute. reflexivity.
  - vm_compute. reflexivity.
Defined.


End DashboardFeatures.

(** ** Pages of the table *)

Section Pages.
Import Interchange Dashboard.

Implicit Types st : State.

Local Abbreviation ranked :=
  (StronglySorted (λ a b : Feature, feature_patients b ≤ feature_patients a)).

Lemma page_rows st (p : Z) :
  1 ≤ p →
  pageData (click_page p st)
    = take 10 (drop (Z.to_nat (10 * (p - 1))) (currentTableData st)).
Proof. intros Hp. by rewrite pageData_rows. Qed.

Lemma updateDashboard_ranked (data : Dataset) (condition : string) st :
  updateDashboard data condition = Some st → ranked (currentTableData st).
Proof.
  unfold updateDashboard.
  destruct (condition_totals data !! condition); [|done].
  destruct (derive_features data condition) as [fs|]; [|done].
  intros [= <-]. apply (sort_descending feature_patients).
Qed.

Lemma step_ranked (data : Dataset) st (ev : event) st' :
  step data st ev st' → ranked (currentTableData st) → ranked (currentTableData st').
Proof.
  intros Hstep Hst.
  destruct Hstep as [st cond st' _ Hup | st _ | st cond st' Hup | st cond _
                    | st view Hview | st view Hview | st view p active Hview Hp];
    try done; try by eapply updateDashboard_ranked.
  - unfold click_prev. by destruct (1 <? currentPage st).
  - unfold click_next. by destruct (currentPage st <? totalPages st).
Qed.

Lemma reachable_ranked (data : Dataset) st :
  reachable data st → ranked (currentTableData st).
Proof.
  induction 1 as [st Hload | st ev st' _ IH _ Hstep].
  - apply (step_ranked data initial LoadComplete st Hload). constructor.
  - by apply (step_ranked data st ev st' Hstep).
Qed.

Lemma ranked_pages (l : list Feature) (a b : nat) (f g : Feature) :
  ranked l → (a + 10 ≤ b)%nat →
  f ∈ take 10 (drop a l) → g ∈ take 10 (drop b l) →
  feature_patients g ≤ feature_patients f.
Proof.
  intros Hl Hab Hf Hg.
  rewrite <- (take_drop (a + 10) l) in Hl.
  apply (StronglySorted_app_1_elem_of _ _ _ f g Hl).
  - rewrite <- take_take_drop. apply elem_of_app. by right.
  - apply subseteq_take in Hg.
    replace b with ((a + 10) + (b - (a + 10)))%nat in Hg by lia.
    rewrite <- drop_drop in Hg. by apply subseteq_drop in Hg.
Qed.

(** X18. In every state of a session the table is in descending order of
    patient count, so the pages are ranked: every row of an earlier page has
    at least as many patients as every row of a later page. *)
Theorem pages_are_ranked (data : Dataset) st :
  reachable data st →
  StronglySorted (λ a b, feature_patients b ≤ feature_patients a)
    (currentTableData st) ∧
  ∀ p q f g, 1 ≤ p → p < q →
    f ∈ pageData (click_page p st) → g ∈ pageData (click_page q st) →
    feature_patients g ≤ feature_patients f.
Proof.
  intros Hl%reachable_ranked. split; [done|].
  intros p q f g Hp Hpq. rewrite !page_rows by lia.
  apply ranked_pages; [done | lia].
Qed.

Lemma pages_are_ranked_witness :
  StronglySorted (λ a b, feature_patients b ≤ feature_patients a)
    (currentTableData Examples.loaded_23).
Proof.
  apply (pages_are_ranked Examples.document_23 Examples.loaded_23).
  apply reach_loaded. apply (step_load _ _ "Stroke"); vm_compute; reflexivity.
Defined.

Lemma concat_chunks {A} (l : list A) (k : nat) :
  concat ((λ i, take 10 (drop (10 * i) l)) <$> seq 0 k) = take (10 * k) l.
Proof.
  induction k as [|k IH]; [by rewrite Nat.mul_0_r|].
  rewrite seq_S, fmap_app, concat_app, IH. simpl. rewrite app_nil_r.
  rewrite take_take_drop. f_equal. lia.
Qed.

Lemma page_length st (p : Z) :
  1 ≤ p →
  Z.of_nat (length (pageData (click_page p st)))
    = Z.max 0 (Z.min (10 * p) (Z.of_nat (length (currentTableData st)))
               - 10 * (p - 1)).
Proof.
  intros Hp. unfold pageData, pageSize, click_page. simpl.
  rewrite slice_length by lia. lia.
Qed.

(** X19. The pages [1 .. totalPages] cut the table into consecutive
    pieces without gap or overlap: in order they make up the table again.
    Every page before the last has 10 rows, the last one between 1 and 10,
    and a page after the last has none. *)
Theorem pages_partition_table st :
  concat ((λ p, pageData (click_page p st)) <$> seqZ 1 (totalPages st))
    = currentTableData st ∧
  (∀ p, 1 ≤ p < totalPages st → length (pageData (click_page p st)) = 10%nat) ∧
  (0 < totalPages st →
   (1 ≤ length (pageData (click_page (totalPages st) st)) ≤ 10)%nat) ∧
  (∀ p, totalPages st < p → pageData (click_page p st) = []).
Proof.
  pose proof (totalPages_spec st) as Hspec. cbv zeta in Hspec.
  pose proof (totalPages_nonneg st) as Hnn.
  split; [|split; [|split]].
  - unfold seqZ. rewrite <- list_fmap_compose.
    rewrite (list_fmap_ext _ (λ i, take 10 (drop (10 * i) (currentTableData st)))
               (seq 0 (Z.to_nat (totalPages st)))).
    + rewrite concat_chunks. apply take_ge. lia.
    + intros i x _. simpl. rewrite page_rows by lia. do 2 f_equal. lia.
  - intros p Hp. apply Nat2Z.inj. rewrite page_length by lia. lia.
  - intros Hpos.
    pose proof (page_length st (totalPages st)) as Hlen. lia.
  - intros p Hp. apply length_zero_iff_nil, Nat2Z.inj.
    rewrite page_length by lia. lia.
Qed.

(** X20. Within the range of pages Prev and Next undo each other, and no
    click changes the number of pages. *)
Theorem prev_and_next_are_inverse st :
  (1 ≤ currentPage st < totalPages st →
   click_prev (click_next (totalPages st) st) = st) ∧
  (1 < currentPage st ≤ totalPages st →
   click_next (totalPages st) (click_prev st) = st) ∧
  totalPages (click_prev st) = totalPages st ∧
  totalPages (click_next (totalPages st) st) = totalPages st ∧
  (∀ p, totalPages (click_page p st) = totalPages st).
Proof.
  destruct st as [l page]. unfold click_prev, click_next, click_page, totalPages.
  simpl. set (tp := Math_ceil_div (Z.of_nat (length l)) pageSize).
  split; [|split; [|split; [|split]]].
  - intros Hp. destruct (page <? tp) eqn:E1; [|lia]. simpl.
    destruct (1 <? page + 1) eqn:E2; [|lia]. f_equal. lia.
  - intros Hp. destruct (1 <? page) eqn:E1; [|lia]. simpl.
    destruct (page - 1 <? tp) eqn:E2; [|lia]. f_equal. lia.
  - by destruct (1 <? page).
  - by destruct (page <? tp).
  - done.
Qed.

(** X21. When the pagination control is shown, its page numbers are
    [1 .. totalPages] in order, and the number marked as active is the
    current page and no other. *)
Theorem page_numbers_mark_current_page st (view : Pagination) :
  renderPagination st = Some view →
  fst <$> page_numbers view = seqZ 1 (totalPages st) ∧
  length (page_numbers view) = Z.to_nat (totalPages st) ∧
  (∀ p, (p, true) ∈ page_numbers view ↔
        p = currentPage st ∧ 1 ≤ p ≤ totalPages st) ∧
  (∀ p, (p, false) ∈ page_numbers view ↔
        p ≠ currentPage st ∧ 1 ≤ p ≤ totalPages st).
Proof.
  intros (_ & _ & _ & ->)%renderPagination_Some.
  assert (∀ p b, (p, b) ∈ (λ p, (p, p =? currentPage st)) <$> seqZ 1 (totalPages st)
                 ↔ b = (p =? currentPage st) ∧ 1 ≤ p ≤ totalPages st) as Hin.
  { intros p b. rewrite list_elem_of_fmap. split.
    - intros (q & [= -> ->] & Hq%elem_of_seqZ). split; [done | lia].
    - intros [-> Hp]. exists p. split; [done|]. apply elem_of_seqZ. lia. }
  split; [|split; [|split]].
  - rewrite <- list_fmap_compose. apply list_fmap_id.
  - by rewrite length_fmap, length_seqZ.
  - intros p. rewrite Hin. split.
    + intros [Heq Hp]. symmetry in Heq. apply Z.eqb_eq in Heq. done.
    + intros [-> Hp]. by rewrite Z.eqb_refl.
  - intros p. rewrite Hin. split.
    + intros [Heq Hp]. symmetry in Heq. apply Z.eqb_neq in Heq. done.
    + intros [Hne Hp]. apply Z.eqb_neq in Hne. by rewrite Hne.
Qed.

Lemma page_numbers_mark_current_page_witness :
  fst <$> [(1, false); (2, false); (3, true)] = seqZ 1 (totalPages (Examples.table_23 3)).
Proof.
  apply (page_numbers_mark_current_page (Examples.table_23 3)
           {| prev_disabled := false;
              page_numbers := [(1, false); (2, false); (3, true)];
              next_disabled := true |}).
  vm_compute. reflexivity.
Defined.

End Pages.

(** ** Map and legend *)

Section MapAndLegend.
Import Interchange Dashboard SpatialRenderer.

Lemma legend_bins_lookup (colours : list string) (quantiles : list (option Q))
    (values : list (option Q)) (i : nat) (b : LegendBin) :
  legend_bins colours quantiles values !! i = Some b →
  (i < length colours)%nat ∧
  colours !! i = Some (bin_colour b) ∧
  bin_min b = (if Nat.eqb i 0 then d3_min values
               else threshold quantiles (i - 1)) ∧
  bin_max b = (if Nat.ltb i (length quantiles) then threshold quantiles i
               else d3_max values).
Proof.
  unfold legend_bins. rewrite list_lookup_imap.
  destruct (colours !! i) as [c|] eqn:E; [|done].
  intros [= <-]. split; [by apply lookup_lt_Some in E | done].
Qed.

(** X22. The legend has one bin per colour of the palette, in the order of
    the palette. When the scale delivers one threshold fewer than there are
    colours, the first bin starts at [d3.min] of the prevalence values, the
    last bin ends at their [d3.max], and each bin ends at the threshold at
    which the next one starts. *)
Theorem legend_bins_meet (colours : list string) (quantiles : list (option Q))
    (values : list (option Q)) :
  (length quantiles + 1 = length colours)%nat →
  bin_colour <$> legend_bins colours quantiles values = colours ∧
  (∀ b, legend_bins colours quantiles values !! 0%nat = Some b →
        bin_min b = d3_min values) ∧
  (∀ b, legend_bins colours quantiles values !! length quantiles = Some b →
        bin_max b = d3_max values) ∧
  (∀ i b b', legend_bins colours quantiles values !! i = Some b →
             legend_bins colours quantiles values !! S i = Some b' →
             bin_max b = threshold quantiles i ∧ bin_min b' = bin_max b).
Proof.
  intros Hlen. split; [|split; [|split]].
  - unfold legend_bins. apply list_eq. intros i.
    rewrite list_lookup_fmap, list_lookup_imap.
    by destruct (colours !! i).
  - by intros b (_ & _ & -> & _)%legend_bins_lookup.
  - intros b (_ & _ & _ & ->)%legend_bins_lookup.
    by rewrite Nat.ltb_irrefl.
  - intros i b b' (_ & _ & _ & ->)%legend_bins_lookup
      (Hi & _ & -> & _)%legend_bins_lookup.
    assert (i < length quantiles)%nat as Hq by lia.
    apply Nat.ltb_lt in Hq as Hq'. rewrite Hq'. simpl. rewrite Nat.sub_0_r.
    done.
Qed.

Lemma legend_bins_meet_witness :
  bin_colour <$> legend_bins purplePalette (Some <$> [1; 2; 3; 4; 5; 6]%Q)
                   [Some 2%Q; None; Some 5%Q]
  = purplePalette.
Proof. apply legend_bins_meet. reflexivity. Defined.

Lemma updateMap_cells (d3 : D3) (pointsData : list Feature) (page : MapPage) :
  cell_feature <$> map_cells (updateMap d3 pointsData page) = pointsData.
Proof.
  destruct pointsData as [|d ds]; [done|]. unfold updateMap.
  cbn [map_cells]. apply list_eq. intros i.
  rewrite list_lookup_fmap, list_lookup_imap.
  by destruct ((d :: ds) !! i).
Qed.

Lemma updateMap_tooltips (d3 : D3) (pointsData : list Feature) (page : MapPage) :
  tooltips (updateMap d3 pointsData page)
  = (tooltips page + if Nat.eqb (length pointsData) 0 then 0 else 1)%nat.
Proof. destruct pointsData; simpl; lia. Qed.

(** X23. Over any sequence of renderings, [updateMap] draws one cell per
    feature, in the order of the features it is given; a rendering with no
    feature empties the drawing and leaves legend and tooltips as they were,
    so the legend of the previous condition stays on the page; every other
    rendering replaces the legend by one bin per palette colour and appends
    one more tooltip element, none being removed: after the sequence there
    are as many more tooltip elements as there were renderings with
    features. *)
Theorem map_renderings (d3 : D3) (renderings : list (list Feature))
    (page : MapPage) :
  tooltips (fold_left (λ pg pointsData, updateMap d3 pointsData pg) renderings page)
    = (tooltips page
       + length (List.filter (λ pts, negb (Nat.eqb (length pts) 0)) renderings))%nat ∧
  (∀ pointsData,
     cell_feature <$> map_cells (updateMap d3 pointsData page) = pointsData) ∧
  legend (updateMap d3 [] page) = legend page ∧
  map_cells (updateMap d3 [] page) = [] ∧
  (∀ pointsData, pointsData ≠ [] →
     bin_colour <$> legend (updateMap d3 pointsData page) = purplePalette).
Proof.
  split; [|split; [|split; [|split]]]; try done.
  - revert page. induction renderings as [|pts rs IH]; intros page; simpl; [lia|].
    rewrite IH, updateMap_tooltips.
    destruct (Nat.eqb (length pts) 0); simpl; lia.
  - intros pts. apply updateMap_cells.
  - intros [|d ds] Hne; [done|]. unfold updateMap. cbn [legend].
    unfold legend_bins. apply list_eq. intros i.
    rewrite list_lookup_fmap, list_lookup_imap.
    by destruct (purplePalette !! i).
Qed.

End MapAndLegend.

(** ** From the extract to the features *)

Section ExtractToFeatures.
Import Interchange.



End ExtractToFeatures.

(** ** Rates that need no rounding *)

Section ExactRates.
Import Aggregator.

Lemma round_half_even_whole (x : Q) (z : Z) :
  x == inject_Z z → round_half_even x = z.
Proof.
  intros Hx. rewrite (round_half_even_comp _ _ Hx). unfold round_half_even.
  rewrite Qfloor_Z.
  assert ((inject_Z z - inject_Z z ?= 1 # 2)%Q = Lt) as ->; [|done].
  apply (proj1 (Qlt_alt _ _)). generalize (inject_Z z). intros q. lra.
Qed.

(** X25. A rate that comes from a single non-missing cell and has at most
    ten decimals is stored as it is: mean and rounding leave it alone. *)
Theorem single_rate_is_stored_unchanged (xs : list (option Q)) (z : Z) :
  omap id xs = [z # 10000000000] →
  (λ v, round v 10) <$> mean_or_na xs = Some (z # 10000000000).
Proof.
  intros Hxs. unfold mean_or_na. rewrite Hxs. simpl. f_equal.
  unfold round. change (Z.to_pos (10 ^ Z.of_nat 10)) with 10000000000%positive.
  f_equal. apply round_half_even_whole.
  unfold mean. simpl. unfold Qeq, Qmult, Qdiv, Qplus, Qinv, inject_Z. simpl. lia.
Qed.

Lemma single_rate_is_stored_unchanged_witness :
  (λ v, round v 10) <$> mean_or_na [None; Some (1234 # 10000000000)%Q; None]
  = Some (1234 # 10000000000).
Proof. apply single_rate_is_stored_unchanged. reflexivity. Defined.

End ExactRates.

(** ** The two dashboard scripts *)

Section TwoDashboards.
Import Interchange Dashboard.

Lemma pages_make_up_table (st : State) :
  concat ((λ p, pageData (click_page p st)) <$> seqZ 1 (totalPages st))
  = currentTableData st.
Proof.
  pose proof (totalPages_spec st) as Hspec. cbv zeta in Hspec.
  pose proof (totalPages_nonneg st) as Hnn.
  unfold seqZ. rewrite <- list_fmap_compose.
  rewrite (list_fmap_ext _ (λ i, take 10 (drop (10 * i) (currentTableData st)))
             (seq 0 (Z.to_nat (totalPages st)))).
  - rewrite concat_chunks. apply take_ge. lia.
  - intros i x _. simpl. rewrite page_rows by lia. do 2 f_equal. lia.
Qed.

(** X26. The script with pagination and the script without it fail on the
    same selections, and otherwise agree on the table: the rows the older
    script binds to its one table are the pages of the newer one, in order,
    the page shown right after a selection being the first ten of them; and
    in both scripts the table holds the features given to the map, in
    another order. *)
Theorem paginated_table_is_unpaginated_table (data : Dataset) (condition : string) :
  (Unpaginated.updateDashboard data condition = None ↔
   updateDashboard data condition = None) ∧
  ∀ st, updateDashboard data condition = Some st →
    ∃ rows features,
      Unpaginated.updateDashboard data condition = Some (rows, features) ∧
      derive_features data condition = Some features ∧
      rows = concat ((λ p, pageData (click_page p st)) <$> seqZ 1 (totalPages st)) ∧
      pageData st = take 10 rows ∧
      rows ≡ₚ features.
Proof.
  unfold Unpaginated.updateDashboard, updateDashboard.
  destruct (condition_totals data !! condition) as [t|]; [|done].
  destruct (derive_features data condition) as [fs|]; [|done].
  split; [done|]. intros st [= <-]. exists (table_order fs), fs.
  split; [done|]. split; [done|]. split; [|split].
  - by rewrite pages_make_up_table.
  - by rewrite pageData_rows.
  - apply (sort_perm feature_patients).
Qed.

End TwoDashboards.
